(** * DrowsyDriver: the eye-aspect-ratio metric and the drowsiness state machine

    A shallow embedding of [backend/utils.py], [backend/config.py] and the
    stateful endpoints of [backend/app.py].

    - Python [int] is [Z]; Python [float] is the kernel's binary64 [float]
      (IEEE 754 double, the same format CPython uses), so comparisons,
      roundings, overflow and division by zero are the ones the program has.
    - Exceptions are explicit ([py]); the module state ([state], [settings])
      is threaded through every endpoint ([App]).
    - What the program gets from OpenCV and MediaPipe (the decoded frame and
      the detected landmarks) is the input of the model. *)

From Stdlib Require Import ZArith Lia List Bool Floats.
From stdpp Require Import gmap strings list.

Set Warnings "-inexact-float".
Local Open Scope Z_scope.

(** ** Python values and primitives *)

Module Py.

Inductive exn :=
| ValueError
| TypeError
| OverflowError
| ZeroDivisionError
| IndexError.

(** A computation that returns or raises. *)
Inductive py (A : Type) :=
| Ret (a : A)
| Raise (e : exn).
Arguments Ret {A} a.
Arguments Raise {A} e.

#[global] Instance py_ret : MRet py := fun _ a => Ret a.
#[global] Instance py_bind : MBind py := fun _ _ k c =>
  match c with
  | Ret a => k a
  | Raise e => Raise e
  end.

(** [try: ... except Exception: return None] *)
Definition catch {A} (c : py A) : option A :=
  match c with
  | Ret a => Some a
  | Raise _ => None
  end.

(** [l[i]] for a non-negative constant index. *)
Definition index {A} (l : list A) (i : nat) : py A :=
  match l !! i with
  | Some a => Ret a
  | None => Raise IndexError
  end.

(** A number as the endpoints serialise it: an [int] or a [float]. *)
Inductive number :=
| PInt (z : Z)
| PFloat (f : float).

(** The nearest double to [± m1 / m2], ties to even ([m1, m2 > 0]). *)
Definition SF_of_ratio (s : bool) (m1 m2 : Z) : spec_float :=
  let '(q, e, l) := SFdiv_core_binary prec emax m1 0 m2 0 in
  binary_round_aux prec emax s q e l.

(** [float(n)] for an [int]: the nearest double, or [OverflowError]. *)
Definition float_of_int (n : Z) : py float :=
  match binary_normalize prec emax n 0 false with
  | S754_infinity _ => Raise OverflowError
  | sf => Ret (SF2Prim sf)
  end.

(** [int(x)] for a [float]: truncation towards zero. *)
Definition int_of_float (x : float) : py Z :=
  match Prim2SF x with
  | S754_nan => Raise ValueError
  | S754_infinity _ => Raise OverflowError
  | S754_zero _ => Ret 0
  | S754_finite s m e =>
      let a := Z.shiftl (Zpos m) e in
      Ret (if s then - a else a)
  end.

(** [x * n] with [x] a [float] and [n] an [int]. *)
Definition float_mul_int (x : float) (n : Z) : py float :=
  y ← float_of_int n; mret (x * y)%float.

(** [x / y] on floats. *)
Definition float_truediv (x y : float) : py float :=
  if (y =? 0)%float then Raise ZeroDivisionError else Ret (x / y)%float.

(** [a / b] on ints: the correctly rounded quotient. *)
Definition int_truediv (a b : Z) : py float :=
  if b =? 0 then Raise ZeroDivisionError
  else
    let s := xorb (a <? 0) (b <? 0) in
    if a =? 0 then Ret (SF2Prim (S754_zero s))
    else
      match SF_of_ratio s (Z.abs a) (Z.abs b) with
      | S754_infinity _ => Raise OverflowError
      | sf => Ret (SF2Prim sf)
      end.

(** [math.sqrt(n)] for an [int]. *)
Definition math_sqrt (n : Z) : py float :=
  x ← float_of_int n;
  if (x <? 0)%float then Raise ValueError else Ret (PrimFloat.sqrt x).

(** [a // b] rounded to the nearest integer, ties to even ([b > 0]). *)
Definition div_half_even (a b : Z) : Z :=
  let q := a / b in
  let r := a mod b in
  match 2 * r ?= b with
  | Lt => q
  | Gt => q + 1
  | Eq => if Z.even q then q else q + 1
  end.

(** [round(x, ndigits)] for a [float] and [ndigits >= 0]: the exact value
    of [x] is rounded to [ndigits] decimals (ties to even), and the
    decimal is converted back to the nearest double. *)
Definition round_float (x : float) (ndigits : nat) : float :=
  match Prim2SF x with
  | S754_finite s m e =>
      let p := 10 ^ Z.of_nat ndigits in
      let k :=
        if 0 <=? e then Z.shiftl (Zpos m * p) e
        else div_half_even (Zpos m * p) (2 ^ (- e)) in
      if k =? 0 then SF2Prim (S754_zero s)
      else SF2Prim (SF_of_ratio s k p)
  | _ => x
  end.

(** [round(v, ndigits)]: an [int] is returned as it is. *)
Definition round (v : number) (ndigits : nat) : number :=
  match v with
  | PInt z => PInt z
  | PFloat f => PFloat (round_float f ndigits)
  end.

End Py.
Import Py.

(** ** utils.py *)

(** A MediaPipe landmark: normalised image coordinates. *)
Record Landmark := { lm_x : float; lm_y : float }.

(** [landmarks.landmark], the list the detector returns for one face. *)
Definition FaceLandmarks := list Landmark.

Definition Point : Type := Z * Z.

Definition LEFT_EYE : list nat := [33; 160; 158; 133; 153; 144]%nat.
Definition RIGHT_EYE : list nat := [263; 387; 385; 362; 380; 373]%nat.

(** [math.sqrt((p1[0] - p2[0]) ** 2 + (p1[1] - p2[1]) ** 2)]; the
    coordinates are ints, so the sum of squares is exact. *)
Definition euclidean_distance (p1 p2 : Point) : py float :=
  math_sqrt ((p1.1 - p2.1) ^ 2 + (p1.2 - p2.2) ^ 2).

(** One turn of the loop of [calculate_EAR]:
    [lm = landmarks.landmark[idx]; x = int(lm.x * w); y = int(lm.y * h)]. *)
Definition pixel_point (landmarks : FaceLandmarks) (w h : Z) (idx : nat) : py Point :=
  lm ← index landmarks idx;
  x ← float_mul_int (lm_x lm) w ≫= int_of_float;
  y ← float_mul_int (lm_y lm) h ≫= int_of_float;
  mret (x, y).

(** The loop: the points of [LEFT_EYE + RIGHT_EYE], in order. *)
Fixpoint pixel_points (landmarks : FaceLandmarks) (w h : Z) (idxs : list nat) : py (list Point) :=
  match idxs with
  | [] => mret []
  | idx :: rest =>
      p ← pixel_point landmarks w h idx;
      ps ← pixel_points landmarks w h rest;
      mret (p :: ps)
  end.

(** The inner function [calculate_eye_ear]. *)
Definition calculate_eye_ear (eye : list Point) : py float :=
  a1 ← index eye 1; a5 ← index eye 5;
  vertical1 ← euclidean_distance a1 a5;
  a2 ← index eye 2; a4 ← index eye 4;
  vertical2 ← euclidean_distance a2 a4;
  a0 ← index eye 0; a3 ← index eye 3;
  horizontal ← euclidean_distance a0 a3;
  float_truediv (vertical1 + vertical2)%float (2.0 * horizontal)%float.

(** The body of [calculate_EAR] after the conversion to pixels. *)
Definition ear_of_points (points : list Point) : py float :=
  let left_eye := take 6 points in
  let right_eye := drop 6 points in
  left_ear ← calculate_eye_ear left_eye;
  right_ear ← calculate_eye_ear right_eye;
  float_truediv (left_ear + right_ear)%float 2.0%float.

(** [frame_shape] is [(height, width, channels)]. Every exception raised in
    the body is caught and turned into [None]. *)
Definition calculate_EAR (landmarks : option FaceLandmarks) (frame_shape : Z * Z * Z) : option float :=
  let '(h, w, _) := frame_shape in
  match landmarks with
  | None => None
  | Some lms =>
      catch (points ← pixel_points lms w h (LEFT_EYE ++ RIGHT_EYE);
             ear_of_points points)
  end.

(** ** config.py *)

(** The detection parameters of [Settings] (the API and CORS settings play
    no part in the detection). *)
Record Settings := {
  EAR_THRESHOLD : float;
  CONSECUTIVE_FRAMES : Z;
  WINDOW_SIZE : Z
}.

(** [settings = Settings()] *)
Definition default_settings : Settings :=
  {| EAR_THRESHOLD := 0.25; CONSECUTIVE_FRAMES := 20; WINDOW_SIZE := 10 |}.

(** Assignments to the attributes of [settings]. *)
Definition set_EAR_THRESHOLD (cfg : Settings) (v : float) : Settings :=
  {| EAR_THRESHOLD := v;
     CONSECUTIVE_FRAMES := CONSECUTIVE_FRAMES cfg;
     WINDOW_SIZE := WINDOW_SIZE cfg |}.

Definition set_CONSECUTIVE_FRAMES (cfg : Settings) (v : Z) : Settings :=
  {| EAR_THRESHOLD := EAR_THRESHOLD cfg;
     CONSECUTIVE_FRAMES := v;
     WINDOW_SIZE := WINDOW_SIZE cfg |}.

Definition set_WINDOW_SIZE (cfg : Settings) (v : Z) : Settings :=
  {| EAR_THRESHOLD := EAR_THRESHOLD cfg;
     CONSECUTIVE_FRAMES := CONSECUTIVE_FRAMES cfg;
     WINDOW_SIZE := v |}.

(** ** app.py *)

Record DetectionState := {
  closed_eye_counter : Z;
  alert_triggered : bool;
  frame_count : Z;
  drowsy_frames : Z
}.

(** [DetectionState.__init__] *)
Definition initial_state : DetectionState :=
  {| closed_eye_counter := 0; alert_triggered := false;
     frame_count := 0; drowsy_frames := 0 |}.

(** The two module-level objects every endpoint reads and writes. *)
Record App := { state : DetectionState; settings : Settings }.

Definition initial_app : App :=
  {| state := initial_state; settings := default_settings |}.

Definition with_state (app : App) (st : DetectionState) : App :=
  {| state := st; settings := settings app |}.

(** What an endpoint answers: a JSON body, or an [HTTPException]. *)
Inductive http (A : Type) :=
| OK (body : A)
| HTTPError (status_code : Z).
Arguments OK {A} body.
Arguments HTTPError {A} status_code.

(** *** process_frame *)

(** The ["status"] strings of the response; ["ERROR"] is the classification
    of a frame whose EAR could not be computed. *)
Inductive Status := AWAKE | DROWSY | NO_FACE | ERROR.

(** The response dictionary; a key that a branch does not emit is [None],
    and ["ear": None] is [resp_ear = None]. The annotated image
    (["frame_base64"]) is left out. *)
Record FrameResult := {
  resp_ear : option float;
  resp_status : Status;
  resp_message : option string;
  resp_alert_triggered : bool;
  resp_closed_eyes_frames : option Z;
  resp_frame_count : Z;
  resp_drowsy_frames : option Z
}.

(** A decoded upload: [frame.shape] and [results.face_landmarks] as the
    detector reports them ([None] or an empty list when no face is found). *)
Record Frame := {
  shape : Z * Z * Z;
  face_landmarks : option (list (option FaceLandmarks))
}.

(** What steps 1 to 4 find out about a frame. *)
Inductive Reading :=
| NoFace
| NoEAR
| EAR (ear : float).

(** Steps 3 and 4: the face check and [calculate_EAR]. *)
Definition read_frame (frame : Frame) : Reading :=
  match face_landmarks frame with
  | None | Some [] => NoFace
  | Some (face :: _) =>
      match calculate_EAR face (shape frame) with
      | None => NoEAR
      | Some ear => EAR ear
      end
  end.

(** [state.frame_count += 1], the first statement of the handler. *)
Definition count_frame (st : DetectionState) : DetectionState :=
  {| closed_eye_counter := closed_eye_counter st;
     alert_triggered := alert_triggered st;
     frame_count := frame_count st + 1;
     drowsy_frames := drowsy_frames st |}.

(** Step 5, the drowsiness check (the message it prints when the latch is
    set is not part of the state). *)
Definition check_drowsiness (cfg : Settings) (ear : float) (st : DetectionState) : DetectionState :=
  if (ear <? EAR_THRESHOLD cfg)%float then
    let counter := closed_eye_counter st + 1 in
    if CONSECUTIVE_FRAMES cfg <=? counter then
      {| closed_eye_counter := counter;
         alert_triggered := if alert_triggered st then alert_triggered st else true;
         frame_count := frame_count st;
         drowsy_frames := drowsy_frames st + 1 |}
    else
      {| closed_eye_counter := counter;
         alert_triggered := alert_triggered st;
         frame_count := frame_count st;
         drowsy_frames := drowsy_frames st |}
  else
    {| closed_eye_counter := 0;
       alert_triggered := false;
       frame_count := frame_count st;
       drowsy_frames := drowsy_frames st |}.

(** One frame of the state machine, from the reading on: the counter of
    processed frames, then the branch of the handler the reading selects. *)
Definition tick (reading : Reading) (app : App) : FrameResult * App :=
  let st := count_frame (state app) in
  match reading with
  | NoFace =>
      ({| resp_ear := None; resp_status := NO_FACE;
          resp_message := Some "No face detected in frame"%string;
          resp_alert_triggered := false;
          resp_closed_eyes_frames := None;
          resp_frame_count := frame_count st;
          resp_drowsy_frames := None |},
       with_state app st)
  | NoEAR =>
      ({| resp_ear := None; resp_status := ERROR;
          resp_message := Some "Could not calculate EAR"%string;
          resp_alert_triggered := false;
          resp_closed_eyes_frames := None;
          resp_frame_count := frame_count st;
          resp_drowsy_frames := None |},
       with_state app st)
  | EAR ear =>
      let st := check_drowsiness (settings app) ear st in
      ({| resp_ear := Some (round_float ear 4);
          resp_status := if alert_triggered st then DROWSY else AWAKE;
          resp_message := None;
          resp_alert_triggered := alert_triggered st;
          resp_closed_eyes_frames := Some (closed_eye_counter st);
          resp_frame_count := frame_count st;
          resp_drowsy_frames := Some (drowsy_frames st) |},
       with_state app st)
  end.

(** The handler. [upload] is the result of [cv2.imdecode]: [None] when the
    file is not an image, in which case the [HTTPException] raised inside
    the [try] is caught by its [except Exception] and answered as a 500,
    after the frame has been counted. Drawing and encoding the annotated
    image (steps 6 and 7) neither read nor write what is modelled here. *)
Definition process_frame (upload : option Frame) (app : App) : http FrameResult * App :=
  match upload with
  | None => (HTTPError 500, with_state app (count_frame (state app)))
  | Some frame =>
      let '(res, app) := tick (read_frame frame) app in (OK res, app)
  end.

(** *** get_config, update_config *)

Record ConfigBody := {
  ear_threshold : float;
  consecutive_frames : Z;
  window_size : Z
}.

Definition config_body (cfg : Settings) : ConfigBody :=
  {| ear_threshold := EAR_THRESHOLD cfg;
     consecutive_frames := CONSECUTIVE_FRAMES cfg;
     window_size := WINDOW_SIZE cfg |}.

(** The dictionary [get_config] returns. *)
Definition get_config (app : App) : ConfigBody := config_body (settings app).

(** The dictionary a handler returns is encoded by the framework with
    [json.dumps(..., allow_nan=False)]: a NaN or an infinity in it raises
    [ValueError] once the handler has run, and the request is answered as
    a 500. *)
Definition json_response (body : ConfigBody) : http ConfigBody :=
  if is_finite (ear_threshold body) then OK body else HTTPError 500.

(** A value of the JSON body of [POST /api/config]. Arrays and objects are
    kept without their contents: [float()] and [int()] refuse them whatever
    they hold. *)
Inductive json :=
| JNull
| JBool (b : bool)
| JInt (z : Z)
| JFloat (f : float)
| JStr (s : string)
| JArray
| JObject.

Section Endpoints.

(** [float(s)] and [int(s)] on a string: Python's parsers, [None] when
    they raise [ValueError]. *)
Variable float_of_str : string -> option float.
Variable int_of_str : string -> option Z.

(** [float(v)] *)
Definition to_float (v : json) : py float :=
  match v with
  | JNull | JArray | JObject => Raise TypeError
  | JBool b => Ret (if b then 1 else 0)%float
  | JInt z => float_of_int z
  | JFloat f => Ret f
  | JStr s => match float_of_str s with Some f => Ret f | None => Raise ValueError end
  end.

(** [int(v)] *)
Definition to_int (v : json) : py Z :=
  match v with
  | JNull | JArray | JObject => Raise TypeError
  | JBool b => Ret (if b then 1 else 0)
  | JInt z => Ret z
  | JFloat f => int_of_float f
  | JStr s => match int_of_str s with Some z => Ret z | None => Raise ValueError end
  end.

(** [if key in config: settings.FIELD = conv(config[key])] *)
Definition assign {X} (config : gmap string json) (key : string)
    (conv : json -> py X) (set : Settings -> X -> Settings) (cfg : Settings) : py Settings :=
  match config !! key with
  | Some v => x ← conv v; mret (set cfg x)
  | None => mret cfg
  end.

(** The three assignments of [update_config], in order. An exception
    leaves the handler at once and is answered as a 500: the settings
    written before it stay written. So do all three when the dictionary
    returned at the end cannot be encoded. *)
Definition update_config (config : gmap string json) (app : App) : http ConfigBody * App :=
  let out (cfg : Settings) := {| state := state app; settings := cfg |} in
  let cfg0 := settings app in
  match assign config "ear_threshold" to_float set_EAR_THRESHOLD cfg0 with
  | Raise _ => (HTTPError 500, out cfg0)
  | Ret cfg1 =>
      match assign config "consecutive_frames" to_int set_CONSECUTIVE_FRAMES cfg1 with
      | Raise _ => (HTTPError 500, out cfg1)
      | Ret cfg2 =>
          match assign config "window_size" to_int set_WINDOW_SIZE cfg2 with
          | Raise _ => (HTTPError 500, out cfg2)
          | Ret cfg3 => (json_response (config_body cfg3), out cfg3)
          end
      end
  end.

(** *** get_stats, reset_stats *)

Record StatsBody := {
  frames_processed : Z;
  stats_drowsy_frames : Z;
  drowsy_percentage : number
}.

(** [(drowsy_frames / max(frame_count, 1)) * 100 if frame_count > 0 else 0] *)
Definition percentage (st : DetectionState) : py number :=
  if 0 <? frame_count st then
    q ← int_truediv (drowsy_frames st) (Z.max (frame_count st) 1);
    p ← float_mul_int q 100;
    mret (PFloat p)
  else mret (PInt 0).

Definition get_stats (app : App) : http StatsBody :=
  match percentage (state app) with
  | Ret p =>
      OK {| frames_processed := frame_count (state app);
            stats_drowsy_frames := drowsy_frames (state app);
            drowsy_percentage := round p 2 |}
  | Raise _ => HTTPError 500
  end.

Definition reset_stats (app : App) : App :=
  with_state app
    {| closed_eye_counter := 0; alert_triggered := false;
       frame_count := 0; drowsy_frames := 0 |}.

(** *** Runs of the service *)

Inductive Request :=
| ProcessFrame (upload : option Frame)
| GetConfig
| UpdateConfig (config : gmap string json)
| GetStats
| ResetStats.

Definition serve (req : Request) (app : App) : App :=
  match req with
  | ProcessFrame upload => snd (process_frame upload app)
  | GetConfig => app
  | UpdateConfig config => snd (update_config config app)
  | GetStats => app
  | ResetStats => reset_stats app
  end.

Definition serve_all (reqs : list Request) (app : App) : App :=
  fold_left (fun app req => serve req app) reqs app.

End Endpoints.

(** * Definitions for the properties *)

(** ** Runs of the state machine *)

(** Feeding a list of readings to [tick]: the results, and the final state. *)
Fixpoint ticks (readings : list Reading) (app : App) : list FrameResult * App :=
  match readings with
  | [] => ([], app)
  | r :: rest =>
      let '(res, app) := tick r app in
      let '(ress, app) := ticks rest app in
      (res :: ress, app)
  end.

(** The states after each reading of a list. *)
Fixpoint trace (readings : list Reading) (app : App) : list DetectionState :=
  match readings with
  | [] => []
  | r :: rest =>
      let app := snd (tick r app) in
      state app :: trace rest app
  end.

(** The uploads of a run, handled in order. *)
Definition process_frames (uploads : list (option Frame)) (app : App) : App :=
  fold_left (fun app upload => snd (process_frame upload app)) uploads app.

(** The settings of the test scenarios: threshold 0.25, three consecutive
    frames. *)
Definition scenario_app (window : Z) : App :=
  {| state := initial_state;
     settings := {| EAR_THRESHOLD := 0.25; CONSECUTIVE_FRAMES := 3; WINDOW_SIZE := window |} |}.

(** A state whose latch is set: the scenario settings after three frames
    with closed eyes. *)
Definition latched_app : App :=
  snd (ticks [EAR 0.20; EAR 0.20; EAR 0.20] (scenario_app 10)).

(** The relation between the two counters. *)
Definition counters_ok (st : DetectionState) : Prop :=
  0 <= drowsy_frames st <= frame_count st.

(** A number with two decimals, given in hundredths ([k >= 0]): the
    double nearest to [k / 100], which is how it is written and read. *)
Definition hundredths (k : Z) : float :=
  if k =? 0 then 0%float else SF2Prim (SF_of_ratio false k 100).

(** The percentage of the specification, in hundredths:
    [100 x drowsy_frames / max(frame_count, 1)] as an exact fraction,
    rounded to two decimals. A value halfway between two hundredths goes
    to the even one, as [round] does. *)
Definition documented_hundredths (st : DetectionState) : Z :=
  div_half_even (100 * drowsy_frames st * 100) (Z.max (frame_count st) 1).

(** What [get_stats] answers according to the specification: the two
    counters and the percentage, exactly [0] when no frame has been
    processed. *)
Definition stats_as_documented (app : App) : Prop :=
  exists pct,
    get_stats app
      = OK {| frames_processed := frame_count (state app);
              stats_drowsy_frames := drowsy_frames (state app);
              drowsy_percentage := pct |} /\
    (frame_count (state app) = 0 -> pct = PInt 0) /\
    (0 < frame_count (state app) ->
     pct = PFloat (hundredths (documented_hundredths (state app)))).

(** What [get_stats] answers on the code: the two counters and a
    percentage of [k] hundredths, where [k] is less than one hundredth
    away from the exact [10000 x drowsy_frames / frame_count] and, below
    [2^32] frames, is a nearest whole number to it: half a hundredth away
    at most, with no rule for the halfway case. *)
Definition stats_within_a_hundredth (app : App) : Prop :=
  let total := frame_count (state app) in
  let drowsy := drowsy_frames (state app) in
  exists pct,
    get_stats app
      = OK {| frames_processed := total;
              stats_drowsy_frames := drowsy;
              drowsy_percentage := pct |} /\
    (total = 0 -> pct = PInt 0) /\
    (0 < total ->
     exists k,
       pct = PFloat (hundredths k) /\
       0 <= k <= 10000 /\
       Z.abs (k * total - 10000 * drowsy) < total /\
       (total < 2 ^ 32 -> 2 * Z.abs (k * total - 10000 * drowsy) <= total)).

(** A run with the default settings that ends with 23 drowsy frames out of
    160: 42 frames with closed eyes, of which the 20th to the 42nd count,
    then 118 frames with open eyes. *)
Definition tie_run : list Reading :=
  replicate 42 (EAR 0.2) ++ replicate 118 (EAR 0.3).

(** The same proportion moved up by one drowsy frame after [160 x 2^51]
    frames: 23 x 2^51 + 1 drowsy frames. *)
Definition large_total_app : App :=
  {| state := {| closed_eye_counter := 0; alert_triggered := false;
                 frame_count := 160 * 2 ^ 51; drowsy_frames := 23 * 2 ^ 51 + 1 |};
     settings := default_settings |}.

(** A state no run reaches, with more drowsy frames than frames. *)
Definition inconsistent_app : App :=
  {| state := {| closed_eye_counter := 0; alert_triggered := false;
                 frame_count := 1; drowsy_frames := 10 ^ 400 |};
     settings := default_settings |}.

(** ** Configuration requests *)

(** What [update_config] leaves in a field: the converted value when the
    key is present, the old value when it is not. *)
Definition assigned {X} (present : option json) (conv : json -> py X) (new old : X) : Prop :=
  match present with
  | Some v => conv v = Ret new
  | None => new = old
  end.

(** String parsers for the examples, which send no string. *)
Definition no_float_of_str (_ : string) : option float := None.
Definition no_int_of_str (_ : string) : option Z := None.

(** A request with [consecutive_frames = 0] and a negative threshold. *)
Definition out_of_range_config : gmap string json :=
  {[ "ear_threshold"%string := JFloat (-1); "consecutive_frames"%string := JInt 0 ]}.

(** A request with an infinite threshold. *)
Definition non_finite_config : gmap string json :=
  {[ "ear_threshold"%string := JFloat infinity ]}.

(** ** The documented formula *)

(** [horizontal = euclidean_distance(eye[0], eye[3])], as
    [calculate_eye_ear] computes it. *)
Definition horizontal (eye : list Point) : py float :=
  a0 ← index eye 0; a3 ← index eye 3; euclidean_distance a0 a3.

(** The nearest double to an integer (an infinity beyond the range). *)
Definition Z2float (n : Z) : float := SF2Prim (binary_normalize prec emax n 0 false).

(** The formula of the specification, in double precision: the Euclidean
    distance of two pixel points, the ratio of one eye from its six points
    in the order p1 .. p6, and the mean of the two eyes. *)
Definition distance (a b : Point) : float :=
  PrimFloat.sqrt (Z2float ((a.1 - b.1) ^ 2 + (a.2 - b.2) ^ 2)).

Record Eye := { p1 : Point; p2 : Point; p3 : Point; p4 : Point; p5 : Point; p6 : Point }.

Definition eye_points (e : Eye) : list Point :=
  [p1 e; p2 e; p3 e; p4 e; p5 e; p6 e].

Definition eye_ratio (e : Eye) : float :=
  ((distance (p2 e) (p6 e) + distance (p3 e) (p5 e)) / (2 * distance (p1 e) (p4 e)))%float.

Definition documented_metric (left right : Eye) : float :=
  ((eye_ratio left + eye_ratio right) / 2)%float.

(** Pixel coordinates for which every squared distance stays within the
    range of a double. *)
Definition in_range (p : Point) : bool :=
  (Z.abs p.1 <? 2 ^ 510) && (Z.abs p.2 <? 2 ^ 510).

(** ** Landmark fixtures *)

(** A 64 x 64 frame; a landmark whose pixel is [p] in it. *)
Definition fixture_shape : Z * Z * Z := (64, 64, 3).

Definition landmark_of (p : Point) : Landmark :=
  {| lm_x := Z2float p.1 / 64; lm_y := Z2float p.2 / 64 |}.

(** A face mesh of 478 landmarks with the given eye points at the indices
    of [LEFT_EYE] and [RIGHT_EYE]. *)
Definition face_with (left right : list Point) : FaceLandmarks :=
  map (fun i =>
         match list_find (eq i) (LEFT_EYE ++ RIGHT_EYE) with
         | Some (k, _) => from_option landmark_of (landmark_of (0, 0)) ((left ++ right) !! k)
         | None => landmark_of (0, 0)
         end)
      (seq 0 478).

Definition frame_with (left right : list Point) : Frame :=
  {| shape := fixture_shape; face_landmarks := Some [Some (face_with left right)] |}.

(** Eyes 10 pixels wide: 3 pixels high (ratio 0.3), 2 pixels high (ratio
    0.2), with both corners on one pixel, and with a lid point 2^512 pixels
    away. *)
Definition open_left : list Point := [(0, 4); (3, 2); (7, 2); (10, 4); (7, 5); (3, 5)].
Definition open_right : list Point := [(20, 4); (23, 2); (27, 2); (30, 4); (27, 5); (23, 5)].
Definition closed_left : list Point := [(0, 4); (3, 3); (7, 3); (10, 4); (7, 5); (3, 5)].
Definition closed_right : list Point := [(20, 4); (23, 3); (27, 3); (30, 4); (27, 5); (23, 5)].
Definition flat_left : list Point := [(5, 4); (3, 2); (7, 2); (5, 4); (7, 5); (3, 5)].
Definition far_left : list Point := [(0, 4); (3, 2 ^ 512); (7, 2); (10, 4); (7, 5); (3, 5)].

(** ** Magnitudes of binary64 numbers *)

(** The magnitude of a positive number [m * 2^e] is [Zdigits2 m + e]: the
    number lies in [[2^(mg-1), 2^mg)]. What rounding may return for a value
    of magnitude [mg < 1024]: never NaN nor an infinity; zero only by
    underflow; a valid double whose magnitude has grown by one at most and,
    in the normal range, has not shrunk. *)
Definition round_ok (s : bool) (mg : Z) (r : spec_float) : Prop :=
  match r with
  | S754_zero s' => s' = s /\ mg < -1021
  | S754_finite s' m e =>
      s' = s /\
      bounded prec emax m e = true /\
      Zdigits2 (Zpos m) + e <= Z.max mg (-1074) + 1 /\
      (-1021 <= mg -> mg <= Zdigits2 (Zpos m) + e)
  | _ => False
  end.

(** A positive finite number of magnitude between [lo] and [hi]. *)
Definition pos_in (lo hi : Z) (x : spec_float) : Prop :=
  match x with
  | S754_finite false m e => lo <= Zdigits2 (Z.pos m) + e <= hi
  | _ => False
  end.

(** Zero, or positive of magnitude between [lo] and [hi]. *)
Definition nonneg_in (lo hi : Z) (x : spec_float) : Prop :=
  x = S754_zero false \/ pos_in lo hi x.

(** The double of mantissa [m >= 0] and exponent [e]: zero when [m = 0]. *)
Definition SF_of_parts (s : bool) (m e : Z) : spec_float :=
  match m with
  | Z0 => S754_zero s
  | Zpos p => S754_finite s p e
  | Zneg _ => S754_nan
  end.

(** The double [2.0]. *)
Definition SF_two : spec_float := S754_finite false 4503599627370496 (-51).

(** The same on primitive floats. *)
Definition fpos (lo hi : Z) (x : float) : Prop := pos_in lo hi (Prim2SF x).
Definition fnonneg (lo hi : Z) (x : float) : Prop := nonneg_in lo hi (Prim2SF x).

(** ** Runs under fixed settings *)

(** The invariant of the latch under fixed settings: the latch is set
    exactly when the run of closed frames is not empty and has reached the
    required length. *)
Definition latch_ok (cfg : Settings) (st : DetectionState) : Prop :=
  0 <= closed_eye_counter st /\
  alert_triggered st
  = (0 <? closed_eye_counter st) && (CONSECUTIVE_FRAMES cfg <=? closed_eye_counter st).

(** A response with status DROWSY. *)
Definition is_drowsy (res : FrameResult) : bool :=
  match resp_status res with
  | DROWSY => true
  | _ => false
  end.

(** A reading that carries an EAR. *)
Definition readable (r : Reading) : bool :=
  match r with
  | EAR _ => true
  | _ => false
  end.

(** The number of readings below the threshold since the last reading at
    or above it, in a history given latest first; readings without an EAR
    are passed over. *)
Fixpoint closed_run (threshold : float) (history : list Reading) : Z :=
  match history with
  | [] => 0
  | EAR ear :: earlier =>
      if (ear <? threshold)%float then closed_run threshold earlier + 1 else 0
  | _ :: earlier => closed_run threshold earlier
  end.

(** Two states that differ in [frame_count] at most. *)
Definition same_detection (st1 st2 : DetectionState) : Prop :=
  closed_eye_counter st1 = closed_eye_counter st2 /\
  alert_triggered st1 = alert_triggered st2 /\
  drowsy_frames st1 = drowsy_frames st2.

(** The run length never exceeds the number of frames. *)
Definition run_ok (st : DetectionState) : Prop :=
  0 <= closed_eye_counter st <= frame_count st.

(** An upload that decodes to a frame with an EAR. *)
Definition has_ear (upload : option Frame) : bool :=
  match upload with
  | Some frame => readable (read_frame frame)
  | None => false
  end.

(** ** Maps of the pixel grid *)

(** A translation of the pixel grid, and the mirror image of a frame of
    width [w]. *)
Definition shift (t : Point) (p : Point) : Point := (p.1 + t.1, p.2 + t.2).
Definition mirror (w : Z) (p : Point) : Point := (w - p.1, p.2).

(** * Properties *)

(** ** The Python primitives on examples *)

Example round_third : round_float (1 / 3 * 100)%float 2 = 33.33%float.
Proof. reflexivity. Qed.

Example round_2675 : round_float 2.675%float 2 = 2.67%float.
Proof. reflexivity. Qed.

Example round_tie : round_float 0.125%float 2 = 0.12%float.
Proof. reflexivity. Qed.

Example round_neg : round_float (-0.001)%float 2 = (-0)%float.
Proof. reflexivity. Qed.

Example truediv_1_3 : int_truediv 1 3 = Ret (1 / 3)%float.
Proof. reflexivity. Qed.

Example truediv_big : int_truediv (10 ^ 400) 1 = Raise OverflowError.
Proof. reflexivity. Qed.

Example truediv_big2 : int_truediv (10 ^ 400) (10 ^ 399) = Ret 10%float.
Proof. reflexivity. Qed.

Example int_trunc : int_of_float 3.99%float = Ret 3 /\ int_of_float (-3.99)%float = Ret (-3).
Proof. split; reflexivity. Qed.

Example sqrt_25 : math_sqrt 25 = Ret 5%float.
Proof. reflexivity. Qed.

(** ** Binary64 arithmetic: bounds on rounded results *)

(** *** Binary digits *)

(** Number of binary digits. *)
(** [Zdigits2] is the binary logarithm plus one. *)
Lemma digits2_pos_size p : digits2_pos p = Pos.size p.
Proof. induction p; simpl; congruence. Qed.

Lemma Zdigits2_log2 m : 0 < m -> Zdigits2 m = Z.log2 m + 1.
Proof.
  destruct m as [|p|p]; try lia. intros _. simpl Zdigits2.
  rewrite digits2_pos_size.
  destruct p; simpl; lia.
Qed.

Lemma Zdigits2_nonneg m : 0 <= Zdigits2 m.
Proof. destruct m; simpl; lia. Qed.

Lemma Zdigits2_pos_ge_1 p : 1 <= Zdigits2 (Z.pos p).
Proof.
  rewrite Zdigits2_log2 by lia. pose proof (Z.log2_nonneg (Z.pos p)). lia.
Qed.

Lemma Zdigits2_spec m : 0 < m -> 2 ^ (Zdigits2 m - 1) <= m < 2 ^ Zdigits2 m.
Proof.
  intros Hm. rewrite Zdigits2_log2 by assumption.
  replace (Z.log2 m + 1 - 1) with (Z.log2 m) by lia.
  apply (Z.log2_spec m Hm).
Qed.

Lemma Zdigits2_lower m k : 0 <= k -> 2 ^ k <= m -> k + 1 <= Zdigits2 m.
Proof.
  intros Hk Hm. assert (0 < 2 ^ k) by (apply Z.pow_pos_nonneg; lia).
  rewrite Zdigits2_log2 by lia.
  apply Z.log2_le_pow2 in Hm; lia.
Qed.

Lemma Zdigits2_upper m k : 0 <= k -> 0 <= m < 2 ^ k -> Zdigits2 m <= k.
Proof.
  intros Hk [Hm0 Hm]. destruct (Z.eq_dec m 0) as [->|Hne]; [simpl; lia|].
  rewrite Zdigits2_log2 by lia.
  apply Z.log2_lt_pow2 in Hm; lia.
Qed.

Lemma Zdigits2_le_mono a b : 0 <= a <= b -> Zdigits2 a <= Zdigits2 b.
Proof.
  intros [Ha Hab]. destruct (Z.eq_dec a 0) as [->|Hne].
  - apply Zdigits2_nonneg.
  - rewrite !Zdigits2_log2 by lia. pose proof (Z.log2_le_mono a b Hab). lia.
Qed.

Lemma Zdigits2_succ_le m : 0 <= m -> Zdigits2 (m + 1) <= Zdigits2 m + 1.
Proof.
  intros Hm. destruct (Z.eq_dec m 0) as [->|Hne]; [simpl; lia|].
  rewrite !Zdigits2_log2 by lia.
  pose proof (Z.log2_succ_le m). unfold Z.succ in *. lia.
Qed.

(** Digits of a shifted mantissa. *)
Lemma Zdigits2_shiftr m n : 0 < m -> 0 <= n -> 0 < Z.shiftr m n ->
  Zdigits2 (Z.shiftr m n) = Zdigits2 m - n.
Proof.
  intros Hm Hn Hs.
  rewrite !Zdigits2_log2 by assumption.
  rewrite Z.log2_shiftr by assumption.
  assert (n <= Z.log2 m); [|lia].
  destruct (Z.le_gt_cases n (Z.log2 m)) as [|Hgt]; [assumption|].
  rewrite Z.shiftr_eq_0 in Hs by lia. lia.
Qed.

Lemma shiftr_pos m n : 0 < m -> 0 <= n -> n < Zdigits2 m -> 0 < Z.shiftr m n.
Proof.
  intros Hm Hn Hd. rewrite Zdigits2_log2 in Hd by assumption.
  assert (Z.shiftr m n <> 0).
  { intros H0. apply Z.shiftr_eq_0_iff in H0. destruct H0 as [H0|[_ H0]]; lia. }
  pose proof (Z.shiftr_nonneg m n). lia.
Qed.

Lemma Zdigits2_mul_pow2 m k : 0 < m -> 0 <= k ->
  Zdigits2 (m * 2 ^ k) = Zdigits2 m + k.
Proof.
  intros Hm Hk.
  assert (0 < 2 ^ k) by (apply Z.pow_pos_nonneg; lia).
  rewrite !Zdigits2_log2 by nia.
  rewrite Z.log2_mul_pow2 by lia. lia.
Qed.

Lemma half_bounds a : 2 * (a / 2) <= a <= 2 * (a / 2) + 1.
Proof.
  pose proof (Z.div_mod a 2 ltac:(lia)). pose proof (Z.mod_pos_bound a 2 ltac:(lia)). lia.
Qed.

Lemma half_sub_even a b : (a - 2 * b) / 2 = a / 2 - b.
Proof.
  replace (a - 2 * b) with (a + (- b) * 2) by ring.
  rewrite Z.div_add by lia. lia.
Qed.

Lemma fexp_eq e : fexp prec emax e = Z.max (e - 53) (-1074).
Proof. reflexivity. Qed.

(** *** Rounding *)

(** The mantissa of a shift record is halved by each step. *)
Lemma shr_1_m r : 0 <= shr_m r -> shr_m (shr_1 r) = shr_m r / 2.
Proof.
  destruct r as [m rb sb]. simpl. intros Hm.
  destruct m as [|[p|p|]|p]; simpl shr_m; [reflexivity| | |reflexivity|lia].
  - rewrite Pos2Z.inj_xI. apply Z.div_unique with (r := 1); lia.
  - rewrite Pos2Z.inj_xO. apply Z.div_unique with (r := 0); lia.
Qed.

Lemma iter_shr_1_m p : forall r, 0 <= shr_m r ->
  shr_m (SpecFloat.iter_pos shr_1 p r) = shr_m r / 2 ^ Zpos p.
Proof.
  induction p as [p IH|p IH|]; intros r Hr; simpl SpecFloat.iter_pos.
  - assert (0 <= shr_m (shr_1 r)) as H1
      by (rewrite shr_1_m by assumption; apply Z.div_pos; lia).
    assert (0 <= shr_m (SpecFloat.iter_pos shr_1 p (shr_1 r))) as H2
      by (rewrite IH by assumption; apply Z.div_pos; lia).
    rewrite IH, IH, shr_1_m by assumption.
    rewrite !Z.div_div by lia. f_equal.
    replace (Z.pos p~1) with (1 + Z.pos p + Z.pos p) by lia.
    rewrite !Z.pow_add_r by lia. change (2 ^ 1) with 2. ring.
  - assert (0 <= shr_m (SpecFloat.iter_pos shr_1 p r)) as H2
      by (rewrite IH by assumption; apply Z.div_pos; lia).
    rewrite IH, IH by assumption.
    rewrite !Z.div_div by lia. f_equal.
    replace (Z.pos p~0) with (Z.pos p + Z.pos p) by lia.
    rewrite !Z.pow_add_r by lia. ring.
  - rewrite shr_1_m by assumption. reflexivity.
Qed.

(** A right shift of the mantissa by [max n 0] digits. *)
Lemma shr_spec r e n : 0 <= shr_m r ->
  shr_m (fst (shr r e n)) = Z.shiftr (shr_m r) (Z.max n 0) /\
  snd (shr r e n) = e + Z.max n 0.
Proof.
  intros Hr. destruct n as [|p|p]; simpl shr; simpl fst; simpl snd.
  - rewrite Z.shiftr_0_r. lia.
  - rewrite iter_shr_1_m by assumption.
    rewrite Z.shiftr_div_pow2 by lia. split; [reflexivity|lia].
  - rewrite Z.shiftr_0_r. lia.
Qed.

Lemma shr_record_of_loc_m m l : shr_m (shr_record_of_loc m l) = m.
Proof. destruct l as [|[| |]]; reflexivity. Qed.

Lemma shr_fexp_spec m e l : 0 <= m ->
  let n := Z.max (fexp prec emax (Zdigits2 m + e) - e) 0 in
  shr_m (fst (shr_fexp prec emax m e l)) = Z.shiftr m n /\
  snd (shr_fexp prec emax m e l) = e + n.
Proof.
  intros Hm n. unfold shr_fexp.
  pose proof (shr_spec (shr_record_of_loc m l) e
                (fexp prec emax (Zdigits2 m + e) - e)) as H.
  rewrite shr_record_of_loc_m in H. apply H. exact Hm.
Qed.

Lemma round_nearest_even_bounds m l :
  m <= round_nearest_even m l <= m + 1.
Proof.
  unfold round_nearest_even.
  destruct l as [|[| |]]; try lia. destruct (Z.even m); lia.
Qed.

(** Rounding a mantissa that is aligned on its format exponent, below the
    overflow threshold. *)
Lemma binary_round_aux_bounds s mx ex lx :
  0 <= mx ->
  ex <= fexp prec emax (Zdigits2 mx + ex) ->
  Zdigits2 mx + ex < 1024 ->
  round_ok s (Zdigits2 mx + ex) (binary_round_aux prec emax s mx ex lx).
Proof.
  intros Hmx Hex Hmg. unfold binary_round_aux.
  destruct (shr_fexp_spec mx ex lx) as [Hm1 He1]; [lia|].
  destruct (shr_fexp prec emax mx ex lx) as [mrs1 e1].
  simpl fst in Hm1. simpl snd in He1.
  set (mg := Zdigits2 mx + ex) in *.
  set (m1 := shr_m mrs1) in *.
  pose proof (round_nearest_even_bounds m1 (loc_of_shr_record mrs1)) as Hm2.
  set (m2 := round_nearest_even m1 (loc_of_shr_record mrs1)) in *.
  rewrite Z.max_l in Hm1, He1 by lia.
  set (n1 := fexp prec emax mg - ex) in *.
  assert (0 <= n1) as Hn1 by lia.
  assert (0 <= m1) as Hm1pos by (rewrite Hm1; apply Z.shiftr_nonneg; lia).
  destruct (shr_fexp_spec m2 e1 loc_Exact) as [Hm3 He3]; [lia|].
  destruct (shr_fexp prec emax m2 e1 loc_Exact) as [mrs3 e3].
  simpl fst in Hm3. simpl snd in He3.
  set (n2 := Z.max (fexp prec emax (Zdigits2 m2 + e1) - e1) 0) in *.
  assert (0 <= n2) as Hn2 by lia.
  assert (e1 = fexp prec emax mg) as HE by lia.
  rewrite fexp_eq in HE.
  pose proof (Zdigits2_nonneg mx) as Hdx.
  (* digits of the rounded mantissa *)
  assert (Zdigits2 m1 <= Zdigits2 m2 <= Zdigits2 m1 + 1) as Hd2.
  { split.
    - apply Zdigits2_le_mono. lia.
    - transitivity (Zdigits2 (m1 + 1)).
      + apply Zdigits2_le_mono. lia.
      + apply Zdigits2_succ_le. lia. }
  assert ((0 < m1 /\ Zdigits2 m1 = mg - e1) \/ (m1 = 0 /\ mg <= e1)) as Hcase.
  { destruct (Z.eq_dec mx 0) as [Hmx0|Hmxne].
    { right. rewrite Hm1, Hmx0, Z.shiftr_0_l. split; [reflexivity|].
      unfold mg. rewrite Hmx0. simpl Zdigits2. lia. }
    assert (0 < mx) as Hmxpos by lia.
    destruct (Z.lt_ge_cases n1 (Zdigits2 mx)) as [Hlt|Hge].
    - left. pose proof (shiftr_pos mx n1 Hmxpos Hn1 Hlt) as Hp.
      rewrite <- Hm1 in Hp. split; [exact Hp|].
      rewrite Hm1, Zdigits2_shiftr by (rewrite <- ?Hm1; lia).
      unfold n1, mg. rewrite fexp_eq. fold mg. lia.
    - right. split.
      + rewrite Hm1. apply Z.shiftr_eq_0; [lia|].
        rewrite Zdigits2_log2 in Hge by lia. lia.
      + unfold n1 in Hge. rewrite fexp_eq in Hge. lia. }
  assert (e3 <= 971) as He3b.
  { rewrite He3. unfold n2. rewrite fexp_eq.
    destruct Hcase as [[_ Hd1]|[H0 Hle]]; [lia|].
    assert (Zdigits2 m2 <= 1); [|lia].
    rewrite H0 in Hd2. simpl in Hd2. lia. }
  assert (0 <= shr_m mrs3) as Hm3pos by (rewrite Hm3; apply Z.shiftr_nonneg; lia).
  destruct (shr_m mrs3) as [|m3|m3] eqn:Em3; [| |lia].
  - (* rounded to zero: only below the normal range *)
    simpl. split; [reflexivity|].
    destruct (Z.lt_ge_cases mg (-1021)) as [|Hnorm]; [assumption|exfalso].
    destruct Hcase as [[Hp Hd1]|[H0 Hle]]; [|lia].
    assert (0 < Z.shiftr m2 n2); [|lia].
    apply shiftr_pos; [lia|lia|].
    unfold n2. rewrite fexp_eq. lia.
  - replace (e3 <=? emax - prec) with true
      by (symmetry; apply Z.leb_le; change (emax - prec) with 971; lia).
    simpl. split; [reflexivity|].
    assert (0 < m2) as Hm2pos.
    { destruct (Z.eq_dec m2 0) as [E0|]; [|lia].
      rewrite E0, Z.shiftr_0_l in Hm3. lia. }
    assert (Zdigits2 (Z.pos m3) = Zdigits2 m2 - n2) as Hd3.
    { rewrite Hm3. apply Zdigits2_shiftr; lia. }
    assert (Zdigits2 m1 = 0 \/ Zdigits2 m1 = mg - e1) as Hd1.
    { destruct Hcase as [[_ Hd1]|[H0 _]]; [right; exact Hd1|left].
      rewrite H0. reflexivity. }
    assert (mg <= e1 \/ 0 < m1) as Hcase' by (destruct Hcase; lia).
    assert (fexp prec emax (Zdigits2 (Z.pos m3) + e3) = e3) as Hcanon.
    { rewrite Hd3, He3. unfold n2. rewrite !fexp_eq.
      replace (Zdigits2 m2 - Z.max (Z.max (Zdigits2 m2 + e1 - 53) (-1074) - e1) 0
               + (e1 + Z.max (Z.max (Zdigits2 m2 + e1 - 53) (-1074) - e1) 0))
        with (Zdigits2 m2 + e1) by ring.
      destruct Hcase as [[Hp Hd1']|[H0 Hle]]; lia. }
    split.
    { unfold bounded, canonical_mantissa.
      change (Z.pos (digits2_pos m3)) with (Zdigits2 (Z.pos m3)).
      rewrite Hcanon, Z.eqb_refl. simpl. apply Z.leb_le.
      change (emax - prec) with 971. lia. }
    change (Z.pos (digits2_pos m3)) with (Zdigits2 (Z.pos m3)).
    rewrite Hd3, He3.
    destruct Hcase as [[Hp Hd1']|[H0 Hle]].
    + lia.
    + rewrite H0 in Hd2. simpl in Hd2. lia.
Qed.

Lemma iter_xO_pow2 d : forall m, Z.pos (Pos.iter xO m d) = Z.pos m * 2 ^ Z.pos d.
Proof.
  induction d as [|d IH] using Pos.peano_ind; intros m.
  - simpl. lia.
  - rewrite Pos.iter_succ, Pos2Z.inj_xO, IH, Pos2Z.inj_succ, Z.pow_succ_r by lia. ring.
Qed.

(** Alignment multiplies the mantissa by a power of two and keeps the
    magnitude. *)
Lemma shl_align_spec mx ex ex' :
  Z.pos (fst (shl_align mx ex ex')) = Z.pos mx * 2 ^ (ex - Z.min ex ex') /\
  snd (shl_align mx ex ex') = Z.min ex ex'.
Proof.
  unfold shl_align. destruct (ex' - ex) as [|d|d] eqn:E; simpl fst; simpl snd.
  - rewrite Z.min_l by lia. rewrite Z.sub_diag. simpl. lia.
  - rewrite Z.min_l by lia. rewrite Z.sub_diag. simpl. lia.
  - rewrite Z.min_r by lia. rewrite iter_xO_pow2.
    replace (ex - ex') with (Z.pos d) by lia. lia.
Qed.

Lemma shl_align_digits mx ex ex' :
  Zdigits2 (Z.pos (fst (shl_align mx ex ex'))) + snd (shl_align mx ex ex')
  = Zdigits2 (Z.pos mx) + ex.
Proof.
  destruct (shl_align_spec mx ex ex') as [-> ->].
  rewrite Zdigits2_mul_pow2 by lia. lia.
Qed.

(** Rounding any positive mantissa: alignment, then [binary_round_aux]. *)
Lemma binary_round_bounds s mx ex :
  Zdigits2 (Z.pos mx) + ex < 1024 ->
  round_ok s (Zdigits2 (Z.pos mx) + ex) (binary_round prec emax s mx ex).
Proof.
  intros Hmg. unfold binary_round.
  pose proof (shl_align_digits mx ex
                (fexp prec emax (Z.pos (digits2_pos mx) + ex))) as Hd.
  pose proof (shl_align_spec mx ex
                (fexp prec emax (Z.pos (digits2_pos mx) + ex))) as [_ He].
  destruct (shl_align mx ex _) as [mz ez]. simpl fst in *. simpl snd in *.
  rewrite <- Hd. apply binary_round_aux_bounds; [lia| |lia].
  rewrite Hd. change (Zdigits2 (Z.pos mx)) with (Z.pos (digits2_pos mx)). lia.
Qed.

Lemma round_ok_pos_in mg r :
  round_ok false mg r -> -1021 <= mg -> pos_in mg (mg + 1) r.
Proof.
  destruct r as [s|s| |s m e]; unfold round_ok, pos_in; try tauto; [lia|].
  intros (-> & _ & Hhi & Hlo) Hmg. lia.
Qed.

Lemma round_ok_valid s mg r : round_ok s mg r -> valid_binary r = true.
Proof.
  destruct r as [s'|s'| |s' m e]; unfold round_ok; simpl; tauto.
Qed.

Lemma pos_in_weaken lo hi lo' hi' x :
  pos_in lo hi x -> lo' <= lo -> hi <= hi' -> pos_in lo' hi' x.
Proof. destruct x as [| | |[|] m e]; simpl; lia. Qed.

Lemma nonneg_in_weaken lo hi lo' hi' x :
  nonneg_in lo hi x -> lo' <= lo -> hi <= hi' -> nonneg_in lo' hi' x.
Proof. intros [H|H] ? ?; [left|right; eapply pos_in_weaken]; eauto. Qed.

(** *** Operations *)

(** [float(n)] *)
Lemma of_int_bounds n :
  0 < n -> Zdigits2 n < 1024 ->
  pos_in (Zdigits2 n) (Zdigits2 n + 1) (binary_normalize prec emax n 0 false).
Proof.
  intros Hn Hd. destruct n as [|p|p]; try lia. simpl binary_normalize.
  pose proof (binary_round_bounds false p 0) as H.
  rewrite Z.add_0_r in H. apply round_ok_pos_in; [apply H; lia|].
  pose proof (Zdigits2_log2 (Z.pos p)). pose proof (Z.log2_nonneg (Z.pos p)). lia.
Qed.

(** Addition of two positive numbers. *)
Lemma add_bounds lo hi x y :
  -1021 <= lo -> hi < 1023 ->
  pos_in lo hi x -> pos_in lo hi y -> pos_in lo (hi + 2) (SFadd prec emax x y).
Proof.
  intros Hlo Hhi Hx Hy.
  destruct x as [| | |[|] mx ex]; try contradiction.
  destruct y as [| | |[|] my ey]; try contradiction.
  unfold pos_in in Hx, Hy. unfold SFadd, cond_Zopp.
  set (ez := Z.min ex ey).
  destruct (shl_align_spec mx ex ez) as [Ha _].
  destruct (shl_align_spec my ey ez) as [Hb _].
  set (a := fst (shl_align mx ex ez)) in *.
  set (b := fst (shl_align my ey ez)) in *.
  rewrite Z.min_r in Ha, Hb by lia.
  change (Z.pos a + Z.pos b) with (Z.pos (a + b)). simpl binary_normalize.
  assert (Zdigits2 (Z.pos a) = Zdigits2 (Z.pos mx) + (ex - ez)) as Hda
    by (rewrite Ha; apply Zdigits2_mul_pow2; lia).
  assert (Zdigits2 (Z.pos b) = Zdigits2 (Z.pos my) + (ey - ez)) as Hdb
    by (rewrite Hb; apply Zdigits2_mul_pow2; lia).
  assert (Zdigits2 (Z.pos a) <= Zdigits2 (Z.pos (a + b))) as H1
    by (apply Zdigits2_le_mono; lia).
  assert (Zdigits2 (Z.pos b) <= Zdigits2 (Z.pos (a + b))) as H2
    by (apply Zdigits2_le_mono; lia).
  assert (Zdigits2 (Z.pos (a + b))
          <= Z.max (Zdigits2 (Z.pos a)) (Zdigits2 (Z.pos b)) + 1) as H3.
  { transitivity (Zdigits2 (Z.max (Z.pos a) (Z.pos b) * 2 ^ 1)).
    - apply Zdigits2_le_mono. lia.
    - rewrite Zdigits2_mul_pow2 by lia.
      destruct (Z.max_spec (Z.pos a) (Z.pos b)) as [[_ ->]|[_ ->]]; lia. }
  eapply pos_in_weaken.
  - apply round_ok_pos_in; [apply binary_round_bounds|]; lia.
  - lia.
  - lia.
Qed.

(** The quotient of two mantissas, before rounding. *)
Lemma div_core_bounds m1 e1 m2 e2 :
  0 < m1 -> 0 < m2 ->
  let mgq := (Zdigits2 m1 + e1) - (Zdigits2 m2 + e2) in
  let '(q, e, _) := SFdiv_core_binary prec emax m1 e1 m2 e2 in
  0 <= q /\
  e <= fexp prec emax (Zdigits2 q + e) /\
  Zdigits2 q + e <= Z.max (mgq + 1) (e1 - e2 + 1) /\
  (-1021 <= mgq -> 0 < q /\ mgq <= Zdigits2 q + e <= mgq + 1).
Proof.
  intros Hm1 Hm2 mgq. unfold SFdiv_core_binary.
  set (e := Z.min (fexp prec emax (Zdigits2 m1 + e1 - (Zdigits2 m2 + e2))) (e1 - e2)).
  set (s := e1 - e2 - e).
  assert (0 <= s) as Hs by (unfold s, e; lia).
  set (m' := match s with Z.pos _ => Z.shiftl m1 s | 0 => m1 | Z.neg _ => 0 end).
  assert (m' = m1 * 2 ^ s) as Hm'.
  { unfold m'. destruct s as [|p|p]; [simpl; lia| |lia].
    apply Z.shiftl_mul_pow2. lia. }
  assert (0 < 2 ^ s) as Hps by (apply Z.pow_pos_nonneg; lia).
  assert (0 < m') as Hm'pos by nia.
  assert (Zdigits2 m' = Zdigits2 m1 + s) as Hdm'
    by (rewrite Hm'; apply Zdigits2_mul_pow2; lia).
  pose proof (Z_div_mod m' m2 ltac:(lia)) as Hdiv.
  destruct (Z.div_eucl m' m2) as [q r]. destruct Hdiv as [Hq Hr].
  set (k := Zdigits2 m' - Zdigits2 m2).
  assert (k = mgq - e) as Hk by (unfold k, mgq, s in *; lia).
  pose proof (Zdigits2_spec m' Hm'pos) as [Hlo' Hhi'].
  pose proof (Zdigits2_spec m2 Hm2) as [Hlo2 Hhi2].
  pose proof (Zdigits2_nonneg m2) as Hd2.
  assert (1 <= Zdigits2 m2) as Hd2'
    by (rewrite Zdigits2_log2 by lia; pose proof (Z.log2_nonneg m2); lia).
  assert (0 <= q) as Hq0 by nia.
  (* the quotient has [k] or [k + 1] digits *)
  assert (1 <= k -> 2 ^ (k - 1) <= q) as Hqlo.
  { intros Hk1.
    assert (2 ^ (Zdigits2 m' - 1) = 2 ^ (k - 1) * 2 ^ Zdigits2 m2) as E.
    { rewrite <- Z.pow_add_r by lia. f_equal. unfold k. lia. }
    assert (0 < 2 ^ (k - 1)) by (apply Z.pow_pos_nonneg; lia).
    destruct (Z.lt_ge_cases q (2 ^ (k - 1))) as [Hlt|]; [exfalso|assumption].
    nia. }
  assert (0 <= k -> q < 2 ^ (k + 1)) as Hqhi.
  { intros Hk0.
    assert (2 ^ Zdigits2 m' = 2 ^ (k + 1) * 2 ^ (Zdigits2 m2 - 1)) as E.
    { rewrite <- Z.pow_add_r by lia. f_equal. unfold k. lia. }
    assert (0 < 2 ^ (k + 1)) by (apply Z.pow_pos_nonneg; lia).
    destruct (Z.lt_ge_cases q (2 ^ (k + 1))) as [|Hge]; [assumption|exfalso].
    nia. }
  assert (k < 0 -> q = 0) as Hq00.
  { intros Hk0.
    assert (2 ^ Zdigits2 m' <= 2 ^ (Zdigits2 m2 - 1))
      by (apply Z.pow_le_mono_r; unfold k in Hk0; lia).
    destruct (Z.eq_dec q 0); [assumption|exfalso]. nia. }
  assert (Zdigits2 q <= Z.max (k + 1) 1) as Hdq_hi.
  { destruct (Z.lt_ge_cases k 0) as [Hneg|Hpos].
    - rewrite (Hq00 Hneg). simpl. lia.
    - pose proof (Zdigits2_upper q (k + 1) ltac:(lia) (conj Hq0 (Hqhi Hpos))). lia. }
  assert (1 <= k -> k <= Zdigits2 q) as Hdq_lo.
  { intros Hk1. pose proof (Zdigits2_lower q (k - 1) ltac:(lia) (Hqlo Hk1)). lia. }
  pose proof (Zdigits2_nonneg q) as Hdq0.
  assert (e <= fexp prec emax mgq) as He by (unfold e, mgq; lia).
  rewrite fexp_eq in He.
  split; [exact Hq0|]. split; [|split].
  - rewrite fexp_eq. destruct (Z.lt_ge_cases mgq (-1021)); [lia|].
    assert (1 <= k) by lia. specialize (Hdq_lo ltac:(lia)). lia.
  - unfold e in *. lia.
  - intros Hnorm. assert (1 <= k) as Hk1 by lia.
    specialize (Hqlo Hk1). specialize (Hdq_lo Hk1).
    assert (0 < 2 ^ (k - 1)) by (apply Z.pow_pos_nonneg; lia). lia.
Qed.

(** The square root of a mantissa, before rounding. *)
Lemma sqrt_core_bounds m e :
  0 < m ->
  let '(q, e', _) := SFsqrt_core_binary prec emax m e in
  0 < q /\
  e' <= fexp prec emax (Zdigits2 q + e') /\
  Zdigits2 q + e' = (Zdigits2 m + e + 1) / 2.
Proof.
  intros Hm. unfold SFsqrt_core_binary.
  rewrite !Z.div2_div.
  set (e' := Z.min (fexp prec emax ((Zdigits2 m + e + 1) / 2)) (e / 2)).
  set (s := e - 2 * e').
  pose proof (half_bounds e) as Hhalf.
  assert (0 <= s) as Hs by (unfold s, e'; lia).
  set (m' := match s with Z.pos _ => Z.shiftl m s | 0 => m | Z.neg _ => 0 end).
  assert (m' = m * 2 ^ s) as Hm'.
  { unfold m'. destruct s as [|p|p]; [simpl; lia| |lia].
    apply Z.shiftl_mul_pow2. lia. }
  assert (0 < 2 ^ s) as Hps by (apply Z.pow_pos_nonneg; lia).
  assert (0 < m') as Hm'pos by nia.
  assert (Zdigits2 m' = Zdigits2 m + s) as Hdm'
    by (rewrite Hm'; apply Zdigits2_mul_pow2; lia).
  pose proof (Z.sqrtrem_spec m' ltac:(lia)) as Hsq.
  destruct (Z.sqrtrem m') as [q r]. destruct Hsq as [Hq Hr].
  pose proof (Zdigits2_spec m' Hm'pos) as [Hlo Hhi].
  assert (1 <= Zdigits2 m') as Hd1
    by (rewrite Zdigits2_log2 by lia; pose proof (Z.log2_nonneg m'); lia).
  set (h := (Zdigits2 m' - 1) / 2).
  pose proof (half_bounds (Zdigits2 m' - 1)) as Hh. fold h in Hh.
  assert (0 <= h) as Hh0 by lia.
  assert (0 < 2 ^ h) as Hph by (apply Z.pow_pos_nonneg; lia).
  assert (2 ^ h * 2 ^ h <= 2 ^ (Zdigits2 m' - 1)) as Hsq_lo.
  { rewrite <- Z.pow_add_r by lia. apply Z.pow_le_mono_r; lia. }
  assert (2 ^ Zdigits2 m' <= 2 ^ (h + 1) * 2 ^ (h + 1)) as Hsq_hi.
  { rewrite <- Z.pow_add_r by lia. apply Z.pow_le_mono_r; lia. }
  assert (0 < 2 ^ (h + 1)) as Hph1 by (apply Z.pow_pos_nonneg; lia).
  assert (2 ^ h <= q) as Hqlo.
  { destruct (Z.lt_ge_cases q (2 ^ h)) as [Hlt|]; [exfalso|assumption]. nia. }
  assert (q < 2 ^ (h + 1)) as Hqhi.
  { destruct (Z.lt_ge_cases q (2 ^ (h + 1))) as [|Hge]; [assumption|exfalso]. nia. }
  assert (Zdigits2 q = h + 1) as Hdq.
  { pose proof (Zdigits2_lower q h Hh0 Hqlo).
    pose proof (Zdigits2_upper q (h + 1) ltac:(lia) ltac:(lia)). lia. }
  assert (Zdigits2 q + e' = (Zdigits2 m + e + 1) / 2) as Hmag.
  { rewrite Hdq. unfold h. rewrite Hdm'. unfold s.
    replace (Zdigits2 m + (e - 2 * e') - 1) with (Zdigits2 m + e - 1 - 2 * e') by ring.
    rewrite half_sub_even.
    replace (Zdigits2 m + e + 1) with (Zdigits2 m + e - 1 + 1 * 2) by ring.
    rewrite Z.div_add by lia. lia. }
  split; [lia|]. split; [|exact Hmag].
  rewrite Hmag. unfold e'. lia.
Qed.

(** Square root of a positive number. *)
Lemma sqrt_bounds lo hi x :
  pos_in lo hi x -> -1021 <= (lo + 1) / 2 -> (hi + 1) / 2 < 1024 ->
  pos_in ((lo + 1) / 2) ((hi + 1) / 2 + 1) (SFsqrt prec emax x).
Proof.
  intros Hx Hlo Hhi.
  destruct x as [| | |[|] m e]; try contradiction.
  unfold pos_in in Hx. unfold SFsqrt.
  pose proof (sqrt_core_bounds (Z.pos m) e ltac:(lia)) as Hc.
  destruct (SFsqrt_core_binary prec emax (Z.pos m) e) as [[q e'] l].
  destruct Hc as (Hq & He' & Hmag).
  assert ((lo + 1) / 2 <= Zdigits2 q + e' <= (hi + 1) / 2) as Hb.
  { rewrite Hmag. split; apply Z.div_le_mono; lia. }
  eapply pos_in_weaken.
  - apply round_ok_pos_in; [apply binary_round_aux_bounds|]; lia.
  - lia.
  - lia.
Qed.

Lemma Prim2SF_two : Prim2SF 2 = SF_two.
Proof. reflexivity. Qed.

(** Twice a positive number. *)
Lemma mul2_bounds lo hi x :
  pos_in lo hi x -> -1021 <= lo + 1 -> hi + 1 < 1024 ->
  pos_in (lo + 1) (hi + 2) (SFmul prec emax SF_two x).
Proof.
  intros Hx Hlo Hhi.
  destruct x as [| | |[|] m e]; try contradiction.
  unfold pos_in in Hx. unfold SFmul, SF_two. simpl xorb.
  pose proof (Zdigits2_pos_ge_1 m) as Hd1.
  assert (Zdigits2 (Z.pos (4503599627370496 * m)) = Zdigits2 (Z.pos m) + 52) as Hd.
  { rewrite Pos2Z.inj_mul, Z.mul_comm.
    change (Z.pos 4503599627370496) with (2 ^ 52).
    apply Zdigits2_mul_pow2; lia. }
  eapply pos_in_weaken.
  - apply round_ok_pos_in; [apply binary_round_aux_bounds|].
    + lia.
    + rewrite Hd, fexp_eq. lia.
    + rewrite Hd. lia.
    + rewrite Hd. lia.
  - rewrite Hd. lia.
  - rewrite Hd. lia.
Qed.

(** Quotient of two positive numbers. *)
Lemma div_bounds lo1 hi1 lo2 hi2 x y :
  pos_in lo1 hi1 x -> pos_in lo2 hi2 y ->
  -1021 <= lo1 - hi2 -> hi1 - lo2 + 1 < 1024 ->
  pos_in (lo1 - hi2) (hi1 - lo2 + 2) (SFdiv prec emax x y).
Proof.
  intros Hx Hy Hlo Hhi.
  destruct x as [| | |[|] mx ex]; try contradiction.
  destruct y as [| | |[|] my ey]; try contradiction.
  unfold pos_in in Hx, Hy. unfold SFdiv. simpl xorb.
  pose proof (div_core_bounds (Z.pos mx) ex (Z.pos my) ey ltac:(lia) ltac:(lia)) as Hc.
  destruct (SFdiv_core_binary prec emax (Z.pos mx) ex (Z.pos my) ey) as [[q e] l].
  cbv zeta in Hc. destruct Hc as (Hq0 & He & _ & Hnorm).
  destruct Hnorm as [Hq Hmag]; [lia|].
  eapply pos_in_weaken.
  - apply round_ok_pos_in; [apply binary_round_aux_bounds|]; lia.
  - lia.
  - lia.
Qed.

Lemma add_nonneg_bounds lo hi x y :
  -1021 <= lo -> hi < 1023 ->
  nonneg_in lo hi x -> nonneg_in lo hi y -> nonneg_in lo (hi + 2) (SFadd prec emax x y).
Proof.
  intros Hlo Hhi [->|Hx] [->|Hy].
  - left. reflexivity.
  - right. destruct y as [| | |[|] m e]; try contradiction.
    cbv beta iota delta [SFadd]. eapply pos_in_weaken; [exact Hy|lia|lia].
  - right. destruct x as [| | |[|] m e]; try contradiction.
    cbv beta iota delta [SFadd]. eapply pos_in_weaken; [exact Hx|lia|lia].
  - right. now apply add_bounds.
Qed.

Lemma div_nonneg_bounds lo1 hi1 lo2 hi2 x y :
  nonneg_in lo1 hi1 x -> pos_in lo2 hi2 y ->
  -1021 <= lo1 - hi2 -> hi1 - lo2 + 1 < 1024 ->
  nonneg_in (lo1 - hi2) (hi1 - lo2 + 2) (SFdiv prec emax x y).
Proof.
  intros [->|Hx] Hy Hlo Hhi.
  - left. destruct y as [| | |[|] m e]; try contradiction. reflexivity.
  - right. now apply div_bounds.
Qed.

Lemma SFmul_comm x y : SFmul prec emax x y = SFmul prec emax y x.
Proof.
  destruct x as [sx|sx| |sx mx ex], y as [sy|sy| |sy my ey]; simpl;
    rewrite ?(xorb_comm sx sy); try reflexivity.
  now rewrite Pos.mul_comm, Z.add_comm.
Qed.

(** *** The same bounds on primitive floats *)

Lemma fpos_fnonneg lo hi x : fpos lo hi x -> fnonneg lo hi x.
Proof. intros H. right. exact H. Qed.

Lemma fnonneg_weaken lo hi lo' hi' x :
  fnonneg lo hi x -> lo' <= lo -> hi <= hi' -> fnonneg lo' hi' x.
Proof. apply nonneg_in_weaken. Qed.

Lemma SFcompare_refl_finite s m e :
  SFcompare (S754_finite s m e) (S754_finite s m e) = Some Eq.
Proof.
  simpl. rewrite Z.compare_refl, Pos.compare_cont_refl.
  destruct s; reflexivity.
Qed.

Lemma fnonneg_is_finite lo hi x : fnonneg lo hi x -> is_finite x = true.
Proof.
  unfold fnonneg, nonneg_in, is_finite, is_nan, is_infinity.
  rewrite !FloatAxioms.eqb_spec, abs_spec.
  change (Prim2SF infinity) with (S754_infinity false).
  intros [->|H]; [reflexivity|].
  destruct (Prim2SF x) as [| | |[|] m e]; try contradiction.
  unfold SFeqb. rewrite SFcompare_refl_finite. reflexivity.
Qed.

Lemma fnonneg_leb lo hi x : fnonneg lo hi x -> (0 <=? x)%float = true.
Proof.
  unfold fnonneg, nonneg_in. rewrite leb_spec.
  change (Prim2SF 0) with (S754_zero false).
  intros [->|H]; [reflexivity|].
  destruct (Prim2SF x) as [| | |[|] m e]; try contradiction. reflexivity.
Qed.

Lemma fpos_ltb lo hi x : fpos lo hi x -> (0 <? x)%float = true.
Proof.
  unfold fpos. rewrite ltb_spec. change (Prim2SF 0) with (S754_zero false).
  destruct (Prim2SF x) as [| | |[|] m e]; try contradiction. reflexivity.
Qed.

Lemma fpos_not_zero lo hi x : fpos lo hi x -> (x =? 0)%float = false.
Proof.
  unfold fpos. rewrite FloatAxioms.eqb_spec. change (Prim2SF 0) with (S754_zero false).
  destruct (Prim2SF x) as [| | |[|] m e]; try contradiction. reflexivity.
Qed.

Lemma fnonneg_not_neg lo hi x : fnonneg lo hi x -> (x <? 0)%float = false.
Proof.
  unfold fnonneg, nonneg_in. rewrite ltb_spec.
  change (Prim2SF 0) with (S754_zero false).
  intros [->|H]; [reflexivity|].
  destruct (Prim2SF x) as [| | |[|] m e]; try contradiction. reflexivity.
Qed.

Lemma fadd_bounds lo hi x y :
  -1021 <= lo -> hi < 1023 ->
  fnonneg lo hi x -> fnonneg lo hi y -> fnonneg lo (hi + 2) (x + y)%float.
Proof. unfold fnonneg. rewrite add_spec. apply add_nonneg_bounds. Qed.

Lemma fdiv_bounds lo1 hi1 lo2 hi2 x y :
  fnonneg lo1 hi1 x -> fpos lo2 hi2 y ->
  -1021 <= lo1 - hi2 -> hi1 - lo2 + 1 < 1024 ->
  fnonneg (lo1 - hi2) (hi1 - lo2 + 2) (x / y)%float.
Proof. unfold fnonneg, fpos. rewrite div_spec. apply div_nonneg_bounds. Qed.

Lemma fmul2_bounds lo hi x :
  fpos lo hi x -> -1021 <= lo + 1 -> hi + 1 < 1024 ->
  fpos (lo + 1) (hi + 2) (2 * x)%float.
Proof. unfold fpos. rewrite mul_spec, Prim2SF_two. apply mul2_bounds. Qed.

Lemma fsqrt_bounds lo hi x :
  fpos lo hi x -> -1021 <= (lo + 1) / 2 -> (hi + 1) / 2 < 1024 ->
  fpos ((lo + 1) / 2) ((hi + 1) / 2 + 1) (PrimFloat.sqrt x).
Proof. unfold fpos. rewrite sqrt_spec. apply sqrt_bounds. Qed.

Lemma fpos_two : fpos 2 2 2.
Proof. unfold fpos. rewrite Prim2SF_two. unfold pos_in. simpl. lia. Qed.

Lemma float_mul_comm (x y : float) : (x * y = y * x)%float.
Proof. apply Prim2SF_inj. rewrite !mul_spec. apply SFmul_comm. Qed.

(** The two doubles that compare equal to zero. *)
Lemma float_eqb_zero (d : float) :
  (d =? 0)%float = true -> d = 0%float \/ d = (-0)%float.
Proof.
  rewrite FloatAxioms.eqb_spec. intros H.
  rewrite <- (SF2Prim_Prim2SF d).
  change (Prim2SF 0) with (S754_zero false) in H.
  destruct (Prim2SF d) as [[|]|[|]| |[|] m e]; try discriminate H.
  - right. reflexivity.
  - left. reflexivity.
Qed.

(** *** The numeric primitives of the program *)

(** [float(n)] returns for a positive [n] below [2^1023]. *)
Lemma float_of_int_pos n :
  0 < n -> Zdigits2 n < 1024 ->
  float_of_int n = Ret (Z2float n) /\ fpos (Zdigits2 n) (Zdigits2 n + 1) (Z2float n).
Proof.
  intros Hn Hd. unfold float_of_int, Z2float, fpos.
  pose proof (of_int_bounds n Hn Hd) as Hb.
  assert (valid_binary (binary_normalize prec emax n 0 false) = true) as Hv.
  { destruct n as [|p|p]; try lia. simpl binary_normalize.
    eapply round_ok_valid. apply binary_round_bounds. rewrite Z.add_0_r. exact Hd. }
  rewrite Prim2SF_SF2Prim by exact Hv.
  split; [|exact Hb].
  destruct (binary_normalize prec emax n 0 false) as [| | |[|] m e];
    try contradiction. reflexivity.
Qed.

(** [math.sqrt(n)] returns for [0 <= n < 2^1023]; the root is zero or lies in
    [[1, 2^513)]. *)
Lemma math_sqrt_bounds n :
  0 <= n -> Zdigits2 n < 1024 ->
  math_sqrt n = Ret (PrimFloat.sqrt (Z2float n)) /\
  fnonneg 1 513 (PrimFloat.sqrt (Z2float n)) /\
  ((0 <? PrimFloat.sqrt (Z2float n))%float = true ->
   fpos 1 513 (PrimFloat.sqrt (Z2float n))).
Proof.
  intros Hn Hd. destruct (Z.eq_dec n 0) as [->|Hne].
  - split; [reflexivity|]. split; [left; reflexivity|].
    intros H. discriminate H.
  - destruct (float_of_int_pos n ltac:(lia) Hd) as [Hret Hpos].
    pose proof (Zdigits2_log2 n ltac:(lia)) as Hlog.
    pose proof (Z.log2_nonneg n) as Hlog0.
    assert (fpos 1 513 (PrimFloat.sqrt (Z2float n))) as Hs.
    { pose proof (half_bounds (Zdigits2 n + 1)) as H1.
      pose proof (half_bounds (Zdigits2 n + 1 + 1)) as H2.
      unfold fpos. eapply pos_in_weaken.
      - apply fsqrt_bounds; [exact Hpos| |]; lia.
      - lia.
      - lia. }
    split; [|split; [right; exact Hs|intros _; exact Hs]].
    unfold math_sqrt. rewrite Hret. simpl.
    rewrite (fnonneg_not_neg _ _ _ (fpos_fnonneg _ _ _ Hpos)). reflexivity.
Qed.

Lemma float_truediv_pos lo hi x y :
  fpos lo hi y -> float_truediv x y = Ret (x / y)%float.
Proof.
  intros Hy. unfold float_truediv.
  rewrite (fpos_not_zero _ _ _ Hy). reflexivity.
Qed.

(** A quotient of at most one never overflows. *)
Lemma int_truediv_fraction a b :
  0 <= a <= b -> 0 < b -> exists q, int_truediv a b = Ret q.
Proof.
  intros [Ha Hab] Hb. unfold int_truediv.
  replace (b =? 0) with false by (symmetry; apply Z.eqb_neq; lia).
  destruct (Z.eqb_spec a 0) as [_|Hne]; [eauto|].
  replace (a <? 0) with false by (symmetry; apply Z.ltb_ge; lia).
  replace (b <? 0) with false by (symmetry; apply Z.ltb_ge; lia).
  rewrite !Z.abs_eq by lia. unfold SF_of_ratio.
  pose proof (div_core_bounds a 0 b 0 ltac:(lia) Hb) as Hc.
  destruct (SFdiv_core_binary prec emax a 0 b 0) as [[q e] l].
  cbv zeta in Hc. destruct Hc as (Hq & He & Hmag & _).
  pose proof (Zdigits2_le_mono a b ltac:(lia)) as Hd.
  pose proof (binary_round_aux_bounds (xorb false false) q e l Hq He ltac:(lia)) as Hr.
  destruct (binary_round_aux prec emax (xorb false false) q e l);
    simpl in Hr; try contradiction; eauto.
Qed.

(** ** Binary64 arithmetic: rounding errors *)

(** What a right shift drops. *)
Lemma shiftr_bounds m n : 0 <= m -> 0 <= n ->
  Z.shiftr m n * 2 ^ n <= m < (Z.shiftr m n + 1) * 2 ^ n.
Proof.
  intros Hm Hn. rewrite Z.shiftr_div_pow2 by assumption.
  assert (0 < 2 ^ n) as Hp by (apply Z.pow_pos_nonneg; lia).
  pose proof (Z.div_mod m (2 ^ n) ltac:(lia)) as Hd.
  pose proof (Z.mod_pos_bound m (2 ^ n) Hp) as Hr.
  set (q := m / 2 ^ n) in *. set (r := m mod 2 ^ n) in *.
  lia.
Qed.

(** Rounding moves a mantissa by less than two units of the exponent it
    ends on. *)
Lemma binary_round_aux_error s mx ex lx :
  0 <= mx ->
  ex <= fexp prec emax (Zdigits2 mx + ex) ->
  Zdigits2 mx + ex < 1024 ->
  exists m e,
    binary_round_aux prec emax s mx ex lx = SF_of_parts s m e /\
    0 <= m /\ ex <= e /\
    e <= Z.max (Zdigits2 mx + ex - 52) (-1074) /\
    mx - 2 * 2 ^ (e - ex) < m * 2 ^ (e - ex) <= mx + 2 ^ (e - ex).
Proof.
  intros Hmx Hex Hmg. unfold binary_round_aux.
  destruct (shr_fexp_spec mx ex lx) as [Hm1 He1]; [lia|].
  destruct (shr_fexp prec emax mx ex lx) as [mrs1 e1].
  simpl fst in Hm1. simpl snd in He1.
  set (mg := Zdigits2 mx + ex) in *.
  set (m1 := shr_m mrs1) in *.
  pose proof (round_nearest_even_bounds m1 (loc_of_shr_record mrs1)) as Hm2.
  set (m2 := round_nearest_even m1 (loc_of_shr_record mrs1)) in *.
  rewrite Z.max_l in Hm1, He1 by lia.
  set (n1 := fexp prec emax mg - ex) in *.
  assert (0 <= n1) as Hn1 by lia.
  assert (0 <= m1) as Hm1pos by (rewrite Hm1; apply Z.shiftr_nonneg; lia).
  destruct (shr_fexp_spec m2 e1 loc_Exact) as [Hm3 He3]; [lia|].
  destruct (shr_fexp prec emax m2 e1 loc_Exact) as [mrs3 e3].
  simpl fst in Hm3. simpl snd in He3.
  set (n2 := Z.max (fexp prec emax (Zdigits2 m2 + e1) - e1) 0) in *.
  assert (0 <= n2) as Hn2 by lia.
  assert (e1 = fexp prec emax mg) as HE by lia.
  rewrite fexp_eq in HE.
  assert (Zdigits2 m2 <= Zdigits2 m1 + 1) as Hd2.
  { transitivity (Zdigits2 (m1 + 1)).
    - apply Zdigits2_le_mono. lia.
    - apply Zdigits2_succ_le. lia. }
  assert (Zdigits2 m1 <= Z.max (mg - e1) 0) as Hd1.
  { destruct (Z.eq_dec m1 0) as [->|Hne]; [simpl; lia|].
    assert (0 < mx) as Hmxpos.
    { destruct (Z.eq_dec mx 0) as [E|]; [|lia].
      rewrite E, Z.shiftr_0_l in Hm1. lia. }
    rewrite Hm1, Zdigits2_shiftr by (rewrite <- ?Hm1; lia).
    unfold n1. rewrite fexp_eq. fold mg. lia. }
  assert (e3 <= Z.max (mg - 52) (-1074)) as He3b.
  { rewrite He3. unfold n2. rewrite fexp_eq. lia. }
  assert (0 <= shr_m mrs3) as Hm3pos by (rewrite Hm3; apply Z.shiftr_nonneg; lia).
  exists (shr_m mrs3), e3.
  split.
  { destruct (shr_m mrs3) as [|m3|m3]; [reflexivity| |lia].
    replace (e3 <=? emax - prec) with true; [reflexivity|].
    symmetry. apply Z.leb_le. change (emax - prec) with 971. lia. }
  split; [exact Hm3pos|]. split; [lia|]. split; [exact He3b|].
  replace (e3 - ex) with (n1 + n2) by lia.
  rewrite Z.pow_add_r by lia.
  pose proof (shiftr_bounds mx n1 Hmx Hn1) as B1. rewrite <- Hm1 in B1.
  pose proof (shiftr_bounds m2 n2 ltac:(lia) Hn2) as B2. rewrite <- Hm3 in B2.
  assert (0 < 2 ^ n1) as P1 by (apply Z.pow_pos_nonneg; lia).
  assert (1 <= 2 ^ n2) as P2
    by (assert (0 < 2 ^ n2) by (apply Z.pow_pos_nonneg; lia); lia).
  set (A := 2 ^ n1) in *. set (B := 2 ^ n2) in *. set (m3 := shr_m mrs3) in *.
  split; nia.
Qed.

(** The integer quotient that the division of two integers rounds. *)
Lemma div_core_value m1 m2 :
  0 < m1 <= m2 ->
  let '(q, e, _) := SFdiv_core_binary prec emax m1 0 m2 0 in
  e <= -53 /\ q * m2 <= m1 * 2 ^ (- e) < (q + 1) * m2.
Proof.
  intros [H1 H12]. unfold SFdiv_core_binary.
  pose proof (Zdigits2_le_mono m1 m2 ltac:(lia)) as Hd.
  set (e := Z.min (fexp prec emax (Zdigits2 m1 + 0 - (Zdigits2 m2 + 0))) (0 - 0)).
  assert (e <= -53) as He by (unfold e; rewrite fexp_eq; lia).
  set (s := 0 - 0 - e).
  assert (s = - e) as Hs by (unfold s; lia).
  set (m' := match s with Z.pos _ => Z.shiftl m1 s | 0 => m1 | Z.neg _ => 0 end).
  assert (m' = m1 * 2 ^ s) as Hm'.
  { unfold m'. destruct s as [|p|p]; [lia| |lia].
    apply Z.shiftl_mul_pow2. lia. }
  pose proof (Z_div_mod m' m2 ltac:(lia)) as Hdiv.
  destruct (Z.div_eucl m' m2) as [q r]. destruct Hdiv as [Hq Hr].
  split; [exact He|]. rewrite <- Hs, <- Hm'. lia.
Qed.

(** The nearest double to a fraction [d / fc] of [(0, 1]]: its mantissa and
    exponent, and the distance to the fraction, in units of the last
    place. *)
Lemma SF_of_ratio_error d fc :
  0 < d <= fc ->
  exists m e,
    SF_of_ratio false d fc = SF_of_parts false m e /\
    valid_binary (SF_of_ratio false d fc) = true /\
    0 <= m /\ e <= -51 /\
    - (3 * fc) < m * fc - d * 2 ^ (- e) <= fc.
Proof.
  intros Hd. unfold SF_of_ratio.
  pose proof (div_core_bounds d 0 fc 0 ltac:(lia) ltac:(lia)) as Hb.
  pose proof (div_core_value d fc Hd) as Hv.
  pose proof (Zdigits2_le_mono d fc ltac:(lia)) as Hdig.
  destruct (SFdiv_core_binary prec emax d 0 fc 0) as [[q e'] l].
  cbv zeta in Hb. destruct Hb as (Hq & Hfexp & Hmag & _).
  destruct Hv as (He' & Hlo & Hhi).
  assert (Zdigits2 q + e' < 1024) as Hlt by lia.
  destruct (binary_round_aux_error false q e' l Hq Hfexp Hlt)
    as (m & e & Hres & Hm & Hee & Heb & Herr).
  exists m, e. split; [exact Hres|].
  split.
  { eapply round_ok_valid. apply binary_round_aux_bounds; assumption. }
  split; [exact Hm|]. split; [lia|].
  replace (- e') with (- e + (e - e')) in Hlo, Hhi by lia.
  rewrite Z.pow_add_r in Hlo, Hhi by lia.
  assert (0 < 2 ^ (e - e')) as P1 by (apply Z.pow_pos_nonneg; lia).
  assert (0 < 2 ^ (- e)) as P2 by (apply Z.pow_pos_nonneg; lia).
  set (N := 2 ^ (e - e')) in *. set (A := 2 ^ (- e)) in *.
  split.
  - apply (Z.mul_lt_mono_pos_r N); [exact P1|]. nia.
  - apply (Z.mul_le_mono_pos_r _ _ N); [exact P1|]. nia.
Qed.

(** [div_half_even] is half a unit away from the exact quotient at most. *)
Lemma div_half_even_error a b :
  0 < b -> 2 * Z.abs (div_half_even a b * b - a) <= b.
Proof.
  intros Hb. unfold div_half_even.
  pose proof (Z.div_mod a b ltac:(lia)) as Hd.
  pose proof (Z.mod_pos_bound a b Hb) as Hr.
  set (q := a / b) in *. set (r := a mod b) in *.
  destruct (Z.compare_spec (2 * r) b) as [E|E|E]; [destruct (Z.even q)| |]; lia.
Qed.

(** The three roundings of the percentage together: the quotient
    [mq / A] of [d / fc], its product [mp / B] with 100 and the number [k]
    of hundredths. *)
Lemma hundredths_distance fc d mq mp k A B C :
  0 < fc -> 0 <= d ->
  2 ^ 51 <= A -> 2 ^ 45 <= B -> 0 < C ->
  A * 2 ^ 46 = B * C ->
  - (3 * fc) < mq * fc - d * A <= fc ->
  mq * 7036874417766400 - 2 * C < mp * C <= mq * 7036874417766400 + C ->
  2 * Z.abs (k * B - mp * 100) <= B ->
  Z.abs (k * fc - 10000 * d) < fc /\
  (fc < 2 ^ 32 -> 2 * Z.abs (k * fc - 10000 * d) <= fc).
Proof.
  intros Hfc Hd HA HB HC HABC H1 H2 H3.
  change (2 ^ 51) with 2251799813685248 in HA.
  change (2 ^ 45) with 35184372088832 in HB.
  change (2 ^ 46) with 70368744177664 in HABC.
  change (2 ^ 32) with 4294967296.
  set (T := k * fc - 10000 * d).
  set (d1 := mq * fc - d * A) in *.
  set (d2 := mp * C - mq * 7036874417766400).
  set (d3 := k * B - mp * 100) in *.
  assert (- (2 * C) < d2 <= C) as H2' by (unfold d2; lia).
  assert (T * (B * C)
          = 703687441776640000 * d1 + 100 * (fc * d2) + fc * C * d3) as E.
  { transitivity (k * fc * (B * C) - 10000 * d * (A * 70368744177664)).
    - rewrite HABC. unfold T. ring.
    - unfold d1, d2, d3. ring. }
  assert (- (2 * (fc * C)) <= fc * d2 <= fc * C) as B2 by nia.
  assert (0 <= fc * C) as HfcC by nia.
  assert (2 * Z.abs (fc * C * d3) <= fc * C * B) as B3.
  { rewrite Z.abs_mul, (Z.abs_eq (fc * C)) by exact HfcC. nia. }
  assert (2 * Z.abs (T * (B * C))
          <= 4222124650659840000 * fc + 400 * (fc * C) + fc * C * B) as BT.
  { rewrite E. lia. }
  assert (0 < B * C) as HBC by nia.
  assert (35184372088832 * C <= B * C) as HBC1 by nia.
  assert (158456325028528675187087900672 <= B * C) as HBC2 by (rewrite <- HABC; lia).
  rewrite Z.abs_mul, (Z.abs_eq (B * C)) in BT by lia.
  replace (fc * C * B) with (fc * (B * C)) in BT by ring.
  set (BC := B * C) in *.
  set (c := 4222124650659840000 + 400 * C).
  assert (0 < c) as Hc by (unfold c; lia).
  assert (2 * (Z.abs T * BC) <= fc * c + fc * BC) as BT'.
  { replace (fc * c) with (4222124650659840000 * fc + 400 * (fc * C))
      by (unfold c; ring).
    lia. }
  assert (4294967296 * c < BC) as Hsmall by (unfold c; lia).
  split.
  - destruct (Z.lt_ge_cases (Z.abs T) fc) as [|Hge]; [assumption|exfalso].
    assert (fc * BC <= Z.abs T * BC) by (apply Z.mul_le_mono_nonneg_r; lia).
    assert (fc * c < fc * BC) by (apply Z.mul_lt_mono_pos_l; lia).
    lia.
  - intros Hfc32.
    destruct (Z.le_gt_cases (2 * Z.abs T) fc) as [|Hgt]; [assumption|exfalso].
    assert ((fc + 1) * BC <= 2 * Z.abs T * BC) by (apply Z.mul_le_mono_nonneg_r; lia).
    assert (fc * c <= 4294967296 * c) by (apply Z.mul_le_mono_nonneg_r; lia).
    lia.
Qed.

(** The product of a double of [(0, 1]] with [100.0]. *)
Lemma SFmul_100_error p e :
  e <= -51 -> Z.pos p <= 2 ^ (- e) + 1 ->
  exists m' e',
    SFmul prec emax (S754_finite false p e) (Prim2SF 100) = SF_of_parts false m' e' /\
    0 <= m' /\ e - 46 <= e' /\ e' <= -45 /\
    Z.pos p * 7036874417766400 - 2 * 2 ^ (e' - (e - 46))
    < m' * 2 ^ (e' - (e - 46))
    <= Z.pos p * 7036874417766400 + 2 ^ (e' - (e - 46)).
Proof.
  intros He Hp.
  change (Prim2SF 100) with (S754_finite false 7036874417766400 (-46)).
  unfold SFmul. rewrite Pos2Z.inj_mul. simpl xorb.
  replace (e + -46) with (e - 46) by lia.
  set (mx := Z.pos p * 7036874417766400).
  assert (0 < 2 ^ (- e)) as HP by (apply Z.pow_pos_nonneg; lia).
  assert (2 ^ 2 <= 2 ^ (- e)) as HP4 by (apply Z.pow_le_mono_r; lia).
  change (2 ^ 2) with 4 in HP4.
  assert (2 ^ 52 <= mx) as Hlo by (change (2 ^ 52) with 4503599627370496; unfold mx; lia).
  assert (mx < 2 ^ (- e + 53)) as Hhi.
  { rewrite Z.pow_add_r by lia. change (2 ^ 53) with 9007199254740992.
    unfold mx. nia. }
  pose proof (Zdigits2_lower mx 52 ltac:(lia) Hlo) as Hd1.
  pose proof (Zdigits2_upper mx (- e + 53) ltac:(lia) ltac:(lia)) as Hd2.
  destruct (binary_round_aux_error false mx (e - 46) loc_Exact) as
    (m' & e' & Hres & Hm' & Hee & Heb & Herr).
  - lia.
  - rewrite fexp_eq. lia.
  - lia.
  - exists m', e'. repeat split; try assumption; lia.
Qed.

Lemma div_half_even_0 b : 0 < b -> div_half_even 0 b = 0.
Proof.
  intros Hb. unfold div_half_even.
  rewrite Z.div_0_l, Z.mod_0_l by lia.
  replace (2 * 0 ?= b) with Lt by (symmetry; apply Z.compare_lt_iff; lia).
  reflexivity.
Qed.

(** [round(p, 2)] for a double below [2^52]. *)
Lemma round_float_hundredths p m e :
  Prim2SF p = SF_of_parts false m e -> 0 <= m -> e < 0 ->
  round_float p 2 = hundredths (div_half_even (m * 100) (2 ^ (- e))).
Proof.
  intros Hp Hm He. unfold round_float, hundredths. rewrite Hp.
  destruct m as [|m|m]; [| |lia]; simpl SF_of_parts; cbv iota.
  - rewrite div_half_even_0 by (apply Z.pow_pos_nonneg; lia).
    rewrite <- (SF2Prim_Prim2SF p), Hp. reflexivity.
  - replace (0 <=? e) with false by (symmetry; apply Z.leb_gt; exact He).
    change (10 ^ Z.of_nat 2) with 100. cbv zeta.
    destruct (_ =? 0); reflexivity.
Qed.

(** [round((d / fc) * 100, 2)] for [0 <= d <= fc]: no exception, and a
    number of hundredths next to the exact one. *)
Lemma percentage_error d fc :
  0 <= d <= fc -> 0 < fc ->
  exists q p k,
    int_truediv d fc = Ret q /\
    float_mul_int q 100 = Ret p /\
    round_float p 2 = hundredths k /\
    Z.abs (k * fc - 10000 * d) < fc /\
    (fc < 2 ^ 32 -> 2 * Z.abs (k * fc - 10000 * d) <= fc).
Proof.
  intros Hd Hfc. unfold int_truediv, float_mul_int.
  change (float_of_int 100) with (Ret 100%float). cbn [mbind py_bind mret py_ret].
  replace (fc =? 0) with false by (symmetry; apply Z.eqb_neq; lia).
  replace (fc <? 0) with false by (symmetry; apply Z.ltb_ge; lia).
  replace (d <? 0) with false by (symmetry; apply Z.ltb_ge; lia).
  simpl xorb.
  destruct (Z.eqb_spec d 0) as [->|Hne].
  - exists (SF2Prim (S754_zero false)), (SF2Prim (S754_zero false) * 100)%float, 0.
    repeat split; try reflexivity; simpl; lia.
  - rewrite !Z.abs_eq by lia.
    destruct (SF_of_ratio_error d fc ltac:(lia)) as (m & e & Hres & Hval & Hm & He & Herr).
    set (q := SF2Prim (SF_of_ratio false d fc)).
    assert (Prim2SF q = SF_of_parts false m e) as Hq
      by (unfold q; rewrite Prim2SF_SF2Prim by exact Hval; exact Hres).
    assert (0 < 2 ^ (- e)) as HA by (apply Z.pow_pos_nonneg; lia).
    assert (2 ^ 51 <= 2 ^ (- e)) as HA51 by (apply Z.pow_le_mono_r; lia).
    assert (exists m' e',
              Prim2SF (q * 100) = SF_of_parts false m' e' /\
              0 <= m' /\ e' <= -45 /\
              exists C, 0 < C /\ 2 ^ (- e) * 2 ^ 46 = 2 ^ (- e') * C /\
                m * 7036874417766400 - 2 * C < m' * C <= m * 7036874417766400 + C)
      as (m' & e' & Hp & Hm' & He' & C & HC & HABC & Hmul).
    { rewrite mul_spec, Hq. unfold SF64mul.
      destruct m as [|pm|pm]; [| |lia].
      - exists 0, (-45). split; [reflexivity|]. split; [lia|]. split; [lia|].
        exists (2 * 2 ^ (- e)). split; [lia|]. split; [|lia].
        change (2 ^ (- -45)) with (2 ^ 45).
        change (2 ^ 46) with (2 ^ 45 * 2). ring.
      - assert (Z.pos pm <= 2 ^ (- e) + 1) as Hpm by nia.
        destruct (SFmul_100_error pm e He Hpm) as (m' & e' & Hr & Hm' & Hee & He' & Herr').
        exists m', e'. simpl SF_of_parts. split; [exact Hr|].
        split; [exact Hm'|]. split; [exact He'|].
        exists (2 ^ (e' - (e - 46))).
        split; [apply Z.pow_pos_nonneg; lia|]. split; [|exact Herr'].
        rewrite <- !Z.pow_add_r by lia. f_equal. lia. }
    exists q, (q * 100)%float, (div_half_even (m' * 100) (2 ^ (- e'))).
    assert (0 < 2 ^ (- e')) as HB by (apply Z.pow_pos_nonneg; lia).
    assert (2 ^ 45 <= 2 ^ (- e')) as HB45 by (apply Z.pow_le_mono_r; lia).
    split.
    { destruct (SF_of_ratio false d fc) as [| | |] eqn:E; try reflexivity.
      all: destruct m; discriminate Hres. }
    split; [reflexivity|].
    split; [apply (round_float_hundredths _ m' e'); [exact Hp|exact Hm'|lia]|].
    apply (hundredths_distance fc d m m' _ (2 ^ (- e)) (2 ^ (- e')) C);
      try assumption; try lia.
    apply div_half_even_error. exact HB.
Qed.

(** ** The state machine *)

Lemma tick_settings r app : settings (snd (tick r app)) = settings app.
Proof. destruct r; reflexivity. Qed.

Lemma check_drowsiness_frame_count cfg ear st :
  frame_count (check_drowsiness cfg ear st) = frame_count st.
Proof.
  unfold check_drowsiness.
  destruct (ear <? EAR_THRESHOLD cfg)%float; [destruct (_ <=? _)|]; reflexivity.
Qed.

Lemma tick_frame_count r app :
  frame_count (state (snd (tick r app))) = frame_count (state app) + 1.
Proof.
  destruct r; simpl; try reflexivity.
  apply check_drowsiness_frame_count.
Qed.

Lemma process_frame_frame_count upload app :
  frame_count (state (snd (process_frame upload app))) = frame_count (state app) + 1.
Proof.
  destruct upload as [frame|]; simpl; [|reflexivity].
  pose proof (tick_frame_count (read_frame frame) app) as H.
  destruct (tick (read_frame frame) app) as [res app']. exact H.
Qed.

(** C1: with threshold 0.25 and three consecutive frames, the readings
    0.30, 0.20, 0.20, 0.20, 0.30 fed to [tick] from the initial state are
    classified AWAKE, AWAKE, AWAKE, DROWSY, AWAKE; [alert_triggered] is true
    in the fourth result only, the latch of the state is set by the fourth
    frame only, and [drowsy_frames] is 1 at the end. *)
Theorem hysteresis_scenario (window : Z) :
  let readings := [EAR 0.30; EAR 0.20; EAR 0.20; EAR 0.20; EAR 0.30] in
  let '(results, app) := ticks readings (scenario_app window) in
  map resp_status results = [AWAKE; AWAKE; AWAKE; DROWSY; AWAKE] /\
  map resp_alert_triggered results = [false; false; false; true; false] /\
  map alert_triggered (trace readings (scenario_app window))
    = [false; false; false; true; false] /\
  drowsy_frames (state app) = 1.
Proof. repeat split; reflexivity. Qed.

(** C4: a frame without a metric is classified NO_FACE (no face) or ERROR
    (the EAR could not be computed) and leaves [closed_eye_counter] and
    [alert_triggered] as they were; with three consecutive frames required,
    the readings 0.20, 0.20, none, 0.20 give the counters 1, 2, 2, 3 and
    end DROWSY. *)
Theorem unreadable_frame_carry_over :
  (forall app,
     resp_status (fst (tick NoFace app)) = NO_FACE /\
     resp_status (fst (tick NoEAR app)) = ERROR) /\
  (forall r app, r = NoFace \/ r = NoEAR ->
     closed_eye_counter (state (snd (tick r app))) = closed_eye_counter (state app) /\
     alert_triggered (state (snd (tick r app))) = alert_triggered (state app)) /\
  (forall r window, r = NoFace \/ r = NoEAR ->
     let readings := [EAR 0.20; EAR 0.20; r; EAR 0.20] in
     map closed_eye_counter (trace readings (scenario_app window)) = [1; 2; 2; 3] /\
     last (map resp_status (fst (ticks readings (scenario_app window)))) = Some DROWSY).
Proof.
  split; [|split].
  - intros app. split; reflexivity.
  - intros r app [-> | ->]; split; reflexivity.
  - intros r window [-> | ->]; split; reflexivity.
Qed.

Lemma unreadable_frame_carry_over_witness :
  closed_eye_counter (state (snd (tick NoFace (scenario_app 10)))) = 0 /\
  map closed_eye_counter
    (trace [EAR 0.20; EAR 0.20; NoEAR; EAR 0.20] (scenario_app 10)) = [1; 2; 2; 3].
Proof.
  destruct unreadable_frame_carry_over as (_ & Hkeep & Hrun). split.
  - exact (proj1 (Hkeep NoFace (scenario_app 10) (or_introl eq_refl))).
  - exact (proj1 (Hrun NoEAR 10 (or_intror eq_refl))).
Defined.

(** C6: every tick adds exactly one to [frame_count], whatever the reading
    (also NO_FACE and ERROR, and also an upload that does not decode), so
    after N frames from a state with [frame_count = t] the counter is
    [t + N]. *)
Theorem frame_count_counts_every_frame :
  (forall r app,
     frame_count (state (snd (tick r app))) = frame_count (state app) + 1) /\
  (forall uploads app,
     frame_count (state (process_frames uploads app))
       = frame_count (state app) + Z.of_nat (length uploads)) /\
  (forall readings app,
     frame_count (state (snd (ticks readings app)))
       = frame_count (state app) + Z.of_nat (length readings)).
Proof.
  split; [exact tick_frame_count|split].
  - intros uploads. unfold process_frames.
    induction uploads as [|u us IH]; intros app; simpl fold_left.
    + simpl. lia.
    + rewrite IH, process_frame_frame_count.
      change (length (u :: us)) with (S (length us)). lia.
  - intros readings.
    induction readings as [|r rs IH]; intros app.
    + simpl. lia.
    + simpl ticks. pose proof (tick_frame_count r app) as Hr.
      destruct (tick r app) as [res app1]. simpl in Hr.
      specialize (IH app1). destruct (ticks rs app1) as [ress app2].
      simpl in IH |- *. rewrite IH, Hr. lia.
Qed.

(** C9: on an unreadable frame (NO_FACE or ERROR) the [alert_triggered]
    field of the response is false whatever the latch of the state is, and
    the latch keeps its value: when it is set, the response does not show
    it. *)
Theorem unreadable_frame_hides_latch :
  forall r app, r = NoFace \/ r = NoEAR ->
    resp_alert_triggered (fst (tick r app)) = false /\
    alert_triggered (state (snd (tick r app))) = alert_triggered (state app).
Proof. intros r app [-> | ->]; split; reflexivity. Qed.

Lemma unreadable_frame_hides_latch_witness :
  alert_triggered (state latched_app) = true /\
  resp_alert_triggered (fst (tick NoFace latched_app)) = false /\
  alert_triggered (state (snd (tick NoFace latched_app))) = true.
Proof.
  split; [reflexivity|].
  destruct (unreadable_frame_hides_latch NoFace latched_app (or_introl eq_refl)) as [H1 H2].
  split; [exact H1|]. rewrite H2. reflexivity.
Defined.

(** ** Reset *)

(** C8: [reset_stats] zeroes the run length, the latch and both counters
    and leaves the settings alone; right after it [get_stats] answers
    0, 0 and the percentage 0 (the int [0], the same number as [0.0]), and a tick
    with an EAR below the threshold brings [closed_eye_counter] to 1. *)
Theorem reset_restarts_detection (app : App) :
  closed_eye_counter (state (reset_stats app)) = 0 /\
  alert_triggered (state (reset_stats app)) = false /\
  frame_count (state (reset_stats app)) = 0 /\
  drowsy_frames (state (reset_stats app)) = 0 /\
  settings (reset_stats app) = settings app /\
  get_stats (reset_stats app)
    = OK {| frames_processed := 0; stats_drowsy_frames := 0; drowsy_percentage := PInt 0 |} /\
  (forall ear, (ear <? EAR_THRESHOLD (settings app))%float = true ->
     closed_eye_counter (state (snd (tick (EAR ear) (reset_stats app)))) = 1).
Proof.
  repeat split.
  intros ear Hlt. simpl. unfold check_drowsiness. simpl. rewrite Hlt.
  destruct (CONSECUTIVE_FRAMES (settings app) <=? 0 + 1); reflexivity.
Qed.

Lemma reset_restarts_detection_witness :
  (0.20 <? EAR_THRESHOLD (settings latched_app))%float = true /\
  closed_eye_counter (state latched_app) = 3 /\
  closed_eye_counter (state (snd (tick (EAR 0.20) (reset_stats latched_app)))) = 1.
Proof.
  split; [reflexivity|split; [reflexivity|]].
  destruct (reset_restarts_detection latched_app) as (_ & _ & _ & _ & _ & _ & H).
  apply H. reflexivity.
Defined.

(** ** The counters *)

Lemma counters_ok_initial : counters_ok initial_state.
Proof. unfold counters_ok. simpl. lia. Qed.

Lemma counters_ok_count_frame st : counters_ok st -> counters_ok (count_frame st).
Proof. unfold counters_ok. simpl. lia. Qed.

Lemma counters_ok_check cfg ear st :
  counters_ok st -> counters_ok (check_drowsiness cfg ear (count_frame st)).
Proof.
  unfold counters_ok, check_drowsiness. intros H.
  destruct (ear <? EAR_THRESHOLD cfg)%float; simpl; [|lia].
  destruct (CONSECUTIVE_FRAMES cfg <=? closed_eye_counter st + 1); simpl; lia.
Qed.

Lemma counters_ok_tick r app :
  counters_ok (state app) -> counters_ok (state (snd (tick r app))).
Proof.
  intros H. destruct r; simpl.
  - now apply counters_ok_count_frame.
  - now apply counters_ok_count_frame.
  - now apply counters_ok_check.
Qed.

Lemma counters_ok_process_frame upload app :
  counters_ok (state app) -> counters_ok (state (snd (process_frame upload app))).
Proof.
  intros H. destruct upload as [frame|]; simpl.
  - pose proof (counters_ok_tick (read_frame frame) app H) as Ht.
    destruct (tick (read_frame frame) app). exact Ht.
  - now apply counters_ok_count_frame.
Qed.

Section Invariant.

Variable float_of_str : string -> option float.
Variable int_of_str : string -> option Z.

Lemma update_config_state config app :
  state (snd (update_config float_of_str int_of_str config app)) = state app.
Proof.
  unfold update_config.
  destruct (assign config "ear_threshold" _ _ _) as [cfg1|]; [|reflexivity].
  destruct (assign config "consecutive_frames" _ _ _) as [cfg2|]; [|reflexivity].
  destruct (assign config "window_size" _ _ _) as [cfg3|]; reflexivity.
Qed.

Lemma counters_ok_serve req app :
  counters_ok (state app) ->
  counters_ok (state (serve float_of_str int_of_str req app)).
Proof.
  intros H. destruct req; simpl; try assumption.
  - now apply counters_ok_process_frame.
  - now rewrite update_config_state.
  - apply counters_ok_initial.
Qed.

Lemma counters_ok_serve_all reqs app :
  counters_ok (state app) ->
  counters_ok (state (serve_all float_of_str int_of_str reqs app)).
Proof.
  unfold serve_all. revert app.
  induction reqs as [|req reqs IH]; intros app H; simpl; [assumption|].
  apply IH. now apply counters_ok_serve.
Qed.

(** C10: from the initial state, after any sequence of frames, resets,
    configuration updates and queries, [drowsy_frames <= frame_count] and
    both counters are non-negative. *)
Theorem drowsy_frames_bounded (cfg : Settings) (reqs : list Request) :
  let app := serve_all float_of_str int_of_str reqs
               {| state := initial_state; settings := cfg |} in
  drowsy_frames (state app) <= frame_count (state app) /\
  0 <= drowsy_frames (state app) /\
  0 <= frame_count (state app).
Proof.
  intros app.
  assert (counters_ok (state app)) as H
    by (apply counters_ok_serve_all, counters_ok_initial).
  unfold counters_ok in H. lia.
Qed.

End Invariant.

(** ** Configuration updates *)

(** The claim C2 fails on the code. A request with a non-positive
    [consecutive_frames] and a non-positive threshold is answered
    ["updated"] and both values are in force afterwards. A request with an
    infinite threshold is answered with a 500, and the infinite threshold
    is in force afterwards all the same. *)
Lemma update_config_accepts_out_of_range :
  (let '(answer, app) :=
     update_config no_float_of_str no_int_of_str out_of_range_config initial_app in
   answer = OK {| ear_threshold := (-1); consecutive_frames := 0; window_size := 10 |} /\
   settings app = {| EAR_THRESHOLD := (-1); CONSECUTIVE_FRAMES := 0; WINDOW_SIZE := 10 |} /\
   settings app <> settings initial_app) /\
  (let '(answer, app) :=
     update_config no_float_of_str no_int_of_str non_finite_config initial_app in
   answer = HTTPError 500 /\
   settings app = {| EAR_THRESHOLD := infinity; CONSECUTIVE_FRAMES := 20; WINDOW_SIZE := 10 |} /\
   settings app <> settings initial_app).
Proof.
  split; vm_compute; repeat split; intros H; discriminate H.
Qed.

(** A NaN is stored in the same way, and once a threshold that is not
    finite is in force every later update is answered with a 500, whatever
    it sends, and so is [get_config]. *)
Example update_config_stores_nan :
  update_config no_float_of_str no_int_of_str
    {[ "ear_threshold"%string := JFloat nan ]} initial_app
  = (HTTPError 500,
     {| state := initial_state;
        settings := {| EAR_THRESHOLD := nan; CONSECUTIVE_FRAMES := 20; WINDOW_SIZE := 10 |} |}).
Proof. reflexivity. Qed.

Example get_config_after_infinity :
  let app := snd (update_config no_float_of_str no_int_of_str non_finite_config initial_app) in
  json_response (get_config app) = HTTPError 500.
Proof. reflexivity. Qed.

Example update_config_after_infinity :
  let app := snd (update_config no_float_of_str no_int_of_str non_finite_config initial_app) in
  update_config no_float_of_str no_int_of_str {[ "window_size"%string := JInt 5 ]} app
  = (HTTPError 500,
     {| state := initial_state;
        settings := {| EAR_THRESHOLD := infinity; CONSECUTIVE_FRAMES := 20; WINDOW_SIZE := 5 |} |}).
Proof. reflexivity. Qed.

(** A value that does not convert stops the handler after the fields
    before it have been written. *)
Example update_config_partial :
  update_config no_float_of_str no_int_of_str
    {[ "ear_threshold"%string := JFloat 0.5; "consecutive_frames"%string := JNull ]}
    initial_app
  = (HTTPError 500,
     {| state := initial_state;
        settings := {| EAR_THRESHOLD := 0.5; CONSECUTIVE_FRAMES := 20; WINDOW_SIZE := 10 |} |}).
Proof. reflexivity. Qed.

Section UpdateConfig.

Variable float_of_str : string -> option float.
Variable int_of_str : string -> option Z.

Lemma assign_returns {X} config key (conv : json -> py X) set cfg :
  (forall v, config !! key = Some v -> exists x, conv v = Ret x) ->
  exists cfg', assign config key conv set cfg = Ret cfg' /\
    match config !! key with
    | Some v => exists x, conv v = Ret x /\ cfg' = set cfg x
    | None => cfg' = cfg
    end.
Proof.
  intros Hconv. unfold assign.
  destruct (config !! key) as [v|].
  - destruct (Hconv v eq_refl) as [x Hx]. rewrite Hx. simpl. eauto.
  - simpl. eauto.
Qed.

(** C2, amended: [update_config] validates no range. In a request whose
    present values convert ([float()] for the threshold, [int()] for the
    two others), each present field is overwritten with the converted
    value whatever it is, out-of-range ones included, each absent field
    keeps its value, and the detection state is untouched. The request is
    accepted and answered with the new configuration when the threshold
    then in force is finite; when it is not, the answer is a 500 and the
    values stay written. *)
Theorem update_config_applies_unvalidated (config : gmap string json) (app : App) :
  (forall v, config !! "ear_threshold"%string = Some v -> exists f, to_float float_of_str v = Ret f) ->
  (forall v, config !! "consecutive_frames"%string = Some v -> exists n, to_int int_of_str v = Ret n) ->
  (forall v, config !! "window_size"%string = Some v -> exists n, to_int int_of_str v = Ret n) ->
  exists cfg,
    update_config float_of_str int_of_str config app
      = (if is_finite (EAR_THRESHOLD cfg) then OK (config_body cfg) else HTTPError 500,
         {| state := state app; settings := cfg |}) /\
    assigned (config !! "ear_threshold"%string) (to_float float_of_str)
      (EAR_THRESHOLD cfg) (EAR_THRESHOLD (settings app)) /\
    assigned (config !! "consecutive_frames"%string) (to_int int_of_str)
      (CONSECUTIVE_FRAMES cfg) (CONSECUTIVE_FRAMES (settings app)) /\
    assigned (config !! "window_size"%string) (to_int int_of_str)
      (WINDOW_SIZE cfg) (WINDOW_SIZE (settings app)).
Proof.
  intros H1 H2 H3. unfold update_config, json_response.
  destruct (assign_returns config "ear_threshold" _ set_EAR_THRESHOLD (settings app) H1)
    as (cfg1 & -> & E1).
  destruct (assign_returns config "consecutive_frames" _ set_CONSECUTIVE_FRAMES cfg1 H2)
    as (cfg2 & -> & E2).
  destruct (assign_returns config "window_size" _ set_WINDOW_SIZE cfg2 H3)
    as (cfg3 & -> & E3).
  exists cfg3. split; [reflexivity|]. unfold assigned.
  destruct (config !! "ear_threshold"%string) as [v1|];
    [destruct E1 as (x1 & Hx1 & ->)|subst cfg1];
  (destruct (config !! "consecutive_frames"%string) as [v2|];
    [destruct E2 as (x2 & Hx2 & ->)|subst cfg2]);
  (destruct (config !! "window_size"%string) as [v3|];
    [destruct E3 as (x3 & Hx3 & ->)|subst cfg3]);
  simpl; auto.
Qed.

End UpdateConfig.

Lemma update_config_applies_unvalidated_witness :
  exists cfg,
    update_config no_float_of_str no_int_of_str out_of_range_config initial_app
      = (OK (config_body cfg), {| state := initial_state; settings := cfg |}) /\
    EAR_THRESHOLD cfg = (-1)%float /\
    CONSECUTIVE_FRAMES cfg = 0 /\
    WINDOW_SIZE cfg = 10.
Proof.
  destruct (update_config_applies_unvalidated no_float_of_str no_int_of_str
              out_of_range_config initial_app) as (cfg & Hrun & Ht & Hc & Hw).
  - intros v Hv. vm_compute in Hv. injection Hv as <-. eexists. reflexivity.
  - intros v Hv. vm_compute in Hv. injection Hv as <-. eexists. reflexivity.
  - intros v Hv. vm_compute in Hv. discriminate Hv.
  - assert (EAR_THRESHOLD cfg = (-1)%float) as Et
      by (vm_compute in Ht; injection Ht as Ht; symmetry; exact Ht).
    rewrite Et in Hrun. vm_compute in Hc, Hw. injection Hc as Hc.
    exists cfg. auto.
Defined.

(** ** The metric on the fixtures *)

Example calculate_EAR_open :
  calculate_EAR (Some (face_with open_left open_right)) fixture_shape = Some 0.3%float.
Proof. reflexivity. Qed.

Example calculate_EAR_closed :
  calculate_EAR (Some (face_with closed_left closed_right)) fixture_shape = Some 0.2%float.
Proof. reflexivity. Qed.

Example calculate_EAR_short_mesh :
  calculate_EAR (Some (take 300 (face_with open_left open_right))) fixture_shape = None.
Proof. reflexivity. Qed.

(** The hysteresis scenario through the handler, from frames. *)
Example process_frame_scenario :
  let opened := Some (frame_with open_left open_right) in
  let closed := Some (frame_with closed_left closed_right) in
  state (process_frames [opened; closed; closed; closed; opened] (scenario_app 10))
  = {| closed_eye_counter := 0; alert_triggered := false;
       frame_count := 5; drowsy_frames := 1 |} /\
  fst (process_frame closed
         (process_frames [opened; closed; closed] (scenario_app 10)))
  = OK {| resp_ear := Some 0.2%float; resp_status := DROWSY; resp_message := None;
          resp_alert_triggered := true; resp_closed_eyes_frames := Some 3;
          resp_frame_count := 4; resp_drowsy_frames := Some 1 |}.
Proof. split; reflexivity. Qed.

(** ** The metric on degenerate landmarks *)

(** Twice a zero is a zero: the division of [calculate_eye_ear] raises. *)
Lemma eye_ear_zero_horizontal (v d : float) :
  (d =? 0)%float = true -> float_truediv v (2.0 * d)%float = Raise ZeroDivisionError.
Proof.
  intros H. destruct (float_eqb_zero d H) as [-> | ->]; reflexivity.
Qed.

Lemma calculate_eye_ear_degenerate (eye : list Point) (d : float) :
  horizontal eye = Ret d -> (d =? 0)%float = true ->
  exists e, calculate_eye_ear eye = Raise e.
Proof.
  unfold horizontal, calculate_eye_ear. intros Hh Hd.
  destruct (index eye 1) as [a1|e]; simpl; [|eauto].
  destruct (index eye 5) as [a5|e]; simpl; [|eauto].
  destruct (euclidean_distance a1 a5) as [v1|e]; simpl; [|eauto].
  destruct (index eye 2) as [a2|e]; simpl; [|eauto].
  destruct (index eye 4) as [a4|e]; simpl; [|eauto].
  destruct (euclidean_distance a2 a4) as [v2|e]; simpl; [|eauto].
  destruct (index eye 0) as [a0|e]; simpl in *; [|eauto].
  destruct (index eye 3) as [a3|e]; simpl in *; [|eauto].
  rewrite Hh. simpl. rewrite eye_ear_zero_horizontal by exact Hd. eauto.
Qed.

(** C3: when the horizontal distance of either eye is zero,
    [calculate_EAR] returns [None], the failure value of the metric (never
    a number, so neither NaN nor an infinity), and the frame is classified
    ERROR. *)
Theorem degenerate_eye_has_no_metric
    (lms : FaceLandmarks) (h w c : Z) (points : list Point) (d : float) :
  pixel_points lms w h (LEFT_EYE ++ RIGHT_EYE) = Ret points ->
  horizontal (take 6 points) = Ret d \/ horizontal (drop 6 points) = Ret d ->
  (d =? 0)%float = true ->
  calculate_EAR (Some lms) (h, w, c) = None /\
  forall faces,
    read_frame {| shape := (h, w, c); face_landmarks := Some (Some lms :: faces) |} = NoEAR.
Proof.
  intros Hpts Hzero Hd.
  assert (calculate_EAR (Some lms) (h, w, c) = None) as Hnone.
  { unfold calculate_EAR. rewrite Hpts. simpl. unfold ear_of_points.
    destruct Hzero as [Hl | Hr].
    - destruct (calculate_eye_ear_degenerate _ d Hl Hd) as [e ->]. reflexivity.
    - destruct (calculate_eye_ear (take 6 points)) as [l|e]; [|reflexivity].
      destruct (calculate_eye_ear_degenerate _ d Hr Hd) as [e ->]. reflexivity. }
  split; [exact Hnone|].
  intros faces. unfold read_frame. cbn [face_landmarks shape].
  rewrite Hnone. reflexivity.
Qed.

Lemma degenerate_eye_has_no_metric_witness :
  calculate_EAR (Some (face_with flat_left open_right)) fixture_shape = None /\
  read_frame (frame_with flat_left open_right) = NoEAR.
Proof.
  destruct (degenerate_eye_has_no_metric
              (face_with flat_left open_right) 64 64 3 (flat_left ++ open_right) 0%float)
    as [Hnone Hread].
  - reflexivity.
  - left. reflexivity.
  - reflexivity.
  - split; [exact Hnone|exact (Hread [])].
Defined.

(** ** The metric on regular landmarks *)

(** In range, a squared distance is below [2^1023]. *)
Lemma in_range_sumsq a b :
  in_range a = true -> in_range b = true ->
  0 <= (a.1 - b.1) ^ 2 + (a.2 - b.2) ^ 2 /\
  Zdigits2 ((a.1 - b.1) ^ 2 + (a.2 - b.2) ^ 2) < 1024.
Proof.
  unfold in_range. rewrite !andb_true_iff, !Z.ltb_lt.
  intros [Ha1 Ha2] [Hb1 Hb2].
  set (B := 2 ^ 510) in *.
  assert (0 < B) as HB by (apply Z.pow_pos_nonneg; lia).
  assert (2 ^ 1023 = 8 * (B * B)) as E.
  { unfold B. rewrite <- Z.pow_add_r by lia. change 8 with (2 ^ 3).
    rewrite <- Z.pow_add_r by lia. reflexivity. }
  rewrite !Z.pow_2_r.
  set (x := a.1 - b.1). set (y := a.2 - b.2).
  assert (- (2 * B) < x < 2 * B) as Hx by (unfold x; lia).
  assert (- (2 * B) < y < 2 * B) as Hy by (unfold y; lia).
  assert (0 <= x * x < 4 * (B * B)) as Hxx by nia.
  assert (0 <= y * y < 4 * (B * B)) as Hyy by nia.
  split; [lia|].
  assert (Zdigits2 (x * x + y * y) <= 1023); [|lia].
  apply Zdigits2_upper; [lia|]. rewrite E. lia.
Qed.

Lemma euclidean_distance_in_range a b :
  in_range a = true -> in_range b = true ->
  euclidean_distance a b = Ret (distance a b) /\
  fnonneg 1 513 (distance a b) /\
  ((0 <? distance a b)%float = true -> fpos 1 513 (distance a b)).
Proof.
  intros Ha Hb. destruct (in_range_sumsq a b Ha Hb) as [H0 Hd].
  apply math_sqrt_bounds; assumption.
Qed.

(** One eye: the ratio is computed, and it is zero or lies in
    [[2^-515, 2^515)]. *)
Lemma calculate_eye_ear_regular (e : Eye) :
  forallb in_range (eye_points e) = true ->
  (0 <? distance (p1 e) (p4 e))%float = true ->
  calculate_eye_ear (eye_points e) = Ret (eye_ratio e) /\
  fnonneg (-514) 515 (eye_ratio e).
Proof.
  destruct e as [a1 a2 a3 a4 a5 a6]. unfold eye_points, eye_ratio.
  cbn [forallb p1 p2 p3 p4 p5 p6]. rewrite !andb_true_iff.
  intros (H1 & H2 & H3 & H4 & H5 & H6 & _) Hpos.
  destruct (euclidean_distance_in_range a2 a6 H2 H6) as (E1 & B1 & _).
  destruct (euclidean_distance_in_range a3 a5 H3 H5) as (E2 & B2 & _).
  destruct (euclidean_distance_in_range a1 a4 H1 H4) as (E3 & _ & B3).
  specialize (B3 Hpos).
  pose proof (fmul2_bounds 1 513 _ B3 ltac:(lia) ltac:(lia)) as Bden.
  pose proof (fadd_bounds 1 513 _ _ ltac:(lia) ltac:(lia) B1 B2) as Bnum.
  split.
  - unfold calculate_eye_ear. cbn [index lookup list_lookup mbind py_bind].
    rewrite E1. cbn [mbind py_bind]. rewrite E2. cbn [mbind py_bind].
    rewrite E3. cbn [mbind py_bind].
    apply (float_truediv_pos _ _ _ _ Bden).
  - eapply fnonneg_weaken.
    + apply (fdiv_bounds _ _ _ _ _ _ Bnum Bden); lia.
    + lia.
    + lia.
Qed.

Lemma horizontal_eye_points (e : Eye) (d : float) :
  forallb in_range (eye_points e) = true ->
  horizontal (eye_points e) = Ret d -> d = distance (p1 e) (p4 e).
Proof.
  destruct e as [a1 a2 a3 a4 a5 a6]. unfold eye_points, horizontal.
  cbn [forallb p1 p2 p3 p4 p5 p6]. rewrite !andb_true_iff.
  intros (H1 & _ & _ & H4 & _).
  destruct (euclidean_distance_in_range a1 a4 H1 H4) as (E & _).
  cbn [index lookup list_lookup mbind py_bind]. rewrite E.
  intros [= <-]. reflexivity.
Qed.

Lemma pixel_points_length lms w h idxs : forall points,
  pixel_points lms w h idxs = Ret points -> length points = length idxs.
Proof.
  induction idxs as [|idx idxs IH]; intros points; simpl.
  - intros [= <-]. reflexivity.
  - destruct (pixel_point lms w h idx) as [p|]; simpl; [|discriminate].
    destruct (pixel_points lms w h idxs) as [ps|]; simpl; [|discriminate].
    intros [= <-]. simpl. f_equal. now apply IH.
Qed.

(** The claim C5 fails without a bound on the coordinates: with a lid
    point [2^512] pixels away, both horizontal distances are 10 and
    [calculate_EAR] returns [None] ([math.sqrt] raises [OverflowError]). *)
Lemma calculate_EAR_overflow :
  let lms := face_with far_left open_right in
  pixel_points lms 64 64 (LEFT_EYE ++ RIGHT_EYE) = Ret (far_left ++ open_right) /\
  horizontal (take 6 (far_left ++ open_right)) = Ret 10%float /\
  horizontal (drop 6 (far_left ++ open_right)) = Ret 10%float /\
  euclidean_distance (3, 2 ^ 512) (3, 5) = Raise OverflowError /\
  calculate_EAR (Some lms) fixture_shape = None.
Proof. repeat split; reflexivity. Qed.

(** C5, amended: for twelve pixel points whose coordinates are below [2^510] in
    absolute value and whose two horizontal distances, as the program
    computes them, are strictly positive, [calculate_EAR] returns a number;
    it is the documented formula evaluated in double precision (for each
    eye [(|p2 p6| + |p3 p5|) / (2 |p1 p4|)], then the mean of both eyes), it
    is finite and it is not negative. *)
Theorem calculate_EAR_regular
    (lms : FaceLandmarks) (h w c : Z) (points : list Point) (dl dr : float) :
  pixel_points lms w h (LEFT_EYE ++ RIGHT_EYE) = Ret points ->
  forallb in_range points = true ->
  horizontal (take 6 points) = Ret dl -> (0 <? dl)%float = true ->
  horizontal (drop 6 points) = Ret dr -> (0 <? dr)%float = true ->
  exists left right : Eye,
    points = eye_points left ++ eye_points right /\
    calculate_EAR (Some lms) (h, w, c) = Some (documented_metric left right) /\
    is_finite (documented_metric left right) = true /\
    (0 <=? documented_metric left right)%float = true.
Proof.
  intros Hpts Hrange Hl Hdl Hr Hdr.
  pose proof (pixel_points_length _ _ _ _ _ Hpts) as Hlen.
  destruct points as [|l1 [|l2 [|l3 [|l4 [|l5 [|l6 [|r1 [|r2 [|r3 [|r4 [|r5 [|r6 [|]]]]]]]]]]]]];
    try discriminate Hlen.
  set (left := {| p1 := l1; p2 := l2; p3 := l3; p4 := l4; p5 := l5; p6 := l6 |}).
  set (right := {| p1 := r1; p2 := r2; p3 := r3; p4 := r4; p5 := r5; p6 := r6 |}).
  exists left, right. split; [reflexivity|].
  assert (forallb in_range (eye_points left) = true /\
          forallb in_range (eye_points right) = true) as [Hrl Hrr].
  { change (l1 :: l2 :: l3 :: l4 :: l5 :: l6 :: r1 :: r2 :: r3 :: r4 :: r5 :: [r6])
      with (eye_points left ++ eye_points right) in Hrange.
    rewrite forallb_app in Hrange. now apply andb_true_iff in Hrange. }
  assert (forall e d, forallb in_range (eye_points e) = true ->
            horizontal (eye_points e) = Ret d -> (0 <? d)%float = true ->
            (0 <? distance (p1 e) (p4 e))%float = true) as Hhoriz.
  { intros e d He Hh Hd. now rewrite <- (horizontal_eye_points e d He Hh). }
  destruct (calculate_eye_ear_regular left Hrl (Hhoriz left dl Hrl Hl Hdl)) as [El Bl].
  destruct (calculate_eye_ear_regular right Hrr (Hhoriz right dr Hrr Hr Hdr)) as [Er Br].
  pose proof (fadd_bounds (-514) 515 _ _ ltac:(lia) ltac:(lia) Bl Br) as Bsum.
  pose proof (fdiv_bounds _ _ _ _ _ _ Bsum fpos_two ltac:(lia) ltac:(lia)) as Bmean.
  split; [|split].
  - unfold calculate_EAR. rewrite Hpts. cbn [mbind py_bind].
    unfold ear_of_points.
    change (take 6 _) with (eye_points left).
    change (drop 6 _) with (eye_points right).
    rewrite El. cbn [mbind py_bind]. rewrite Er. cbn [mbind py_bind].
    rewrite (float_truediv_pos _ _ _ _ fpos_two). reflexivity.
  - exact (fnonneg_is_finite _ _ _ Bmean).
  - exact (fnonneg_leb _ _ _ Bmean).
Qed.

Lemma calculate_EAR_regular_witness :
  exists left right : Eye,
    open_left ++ open_right = eye_points left ++ eye_points right /\
    calculate_EAR (Some (face_with open_left open_right)) fixture_shape
      = Some (documented_metric left right) /\
    documented_metric left right = 0.3%float.
Proof.
  destruct (calculate_EAR_regular
              (face_with open_left open_right) 64 64 3 (open_left ++ open_right)
              10%float 10%float)
    as (left & right & Hpts & Hear & _ & _); try reflexivity.
  exists left, right. split; [exact Hpts|]. split; [exact Hear|].
  change fixture_shape with (64, 64, 3) in *.
  assert (calculate_EAR (Some (face_with open_left open_right)) (64, 64, 3)
          = Some 0.3%float) as H by reflexivity.
  rewrite H in Hear. now injection Hear as <-.
Defined.

(** ** Statistics *)

(** The claim C7 fails on the code. After 23 drowsy frames out of 160
    the percentage is 14.375 and rounds to 14.38 (the tie goes to the even
    hundredth, and upward as well); [get_stats] answers 14.37, because the
    quotient [23 / 160] is rounded to a double before it is multiplied by
    100. With [160 x 2^51] frames and one drowsy frame more than that
    proportion, the percentage is above the halfway point and the answer
    is 14.37 still: more than half a hundredth away. And in a state with
    more drowsy frames than frames, which no run reaches, the division can
    raise: the answer is a 500. *)
Lemma get_stats_percentage_tie :
  (let app := snd (ticks tie_run initial_app) in
   frame_count (state app) = 160 /\
   drowsy_frames (state app) = 23 /\
   get_stats app
   = OK {| frames_processed := 160; stats_drowsy_frames := 23;
           drowsy_percentage := PFloat 14.37 |} /\
   documented_hundredths (state app) = 1438 /\
   (100 * 23 * 100 * 2 + 160) / (2 * 160) = 1438 /\
   hundredths 1438 = 14.38%float /\
   ~ stats_as_documented app) /\
  (let total := frame_count (state large_total_app) in
   let drowsy := drowsy_frames (state large_total_app) in
   get_stats large_total_app
   = OK {| frames_processed := total; stats_drowsy_frames := drowsy;
           drowsy_percentage := PFloat (hundredths 1437) |} /\
   total < 2 * Z.abs (1437 * total - 10000 * drowsy)) /\
  get_stats inconsistent_app = HTTPError 500.
Proof.
  split; [|split; [split; reflexivity|reflexivity]].
  repeat split; try reflexivity.
  intros (pct & Hstats & _ & Hpct).
  specialize (Hpct ltac:(reflexivity)).
  assert (pct = PFloat 14.37) as E by (vm_compute in Hstats; congruence).
  rewrite E in Hpct. vm_compute in Hpct.
  assert (Prim2SF 14.37 = Prim2SF 14.38) as H by congruence.
  vm_compute in H. discriminate H.
Qed.

(** The answer of [get_stats] when the counters are consistent. *)
Lemma get_stats_in_valid_state (app : App) :
  counters_ok (state app) -> stats_within_a_hundredth app.
Proof.
  unfold stats_within_a_hundredth, counters_ok, get_stats, percentage. intros Hok.
  destruct (Z.ltb_spec 0 (frame_count (state app))) as [Hpos|Hzero].
  - rewrite Z.max_l by lia.
    destruct (percentage_error (drowsy_frames (state app)) (frame_count (state app))
                Hok Hpos) as (q & p & k & Hq & Hp & Hk & Hlt & Hnear).
    rewrite Hq. cbn [mbind py_bind]. rewrite Hp. cbn [mbind py_bind mret py_ret round].
    eexists. split; [reflexivity|]. split; [lia|].
    intros _. exists k. rewrite Hk. split; [reflexivity|].
    split; [|split; assumption].
    set (total := frame_count (state app)) in *.
    set (drowsy := drowsy_frames (state app)) in *.
    split; nia.
  - cbn [mret py_ret round]. eexists. split; [reflexivity|]. split; [reflexivity|lia].
Qed.

(** C7, amended: in every state with [0 <= drowsy_frames <= frame_count],
    hence after every run of requests from the initial state, [get_stats]
    answers, without a division error, [frame_count], [drowsy_frames] and
    the percentage: exactly [0] when no frame has been processed, and
    otherwise a number with two decimals, between 0 and 100, less than
    0.01 away from [100 x drowsy_frames / max(frame_count, 1)]. Below
    [2^32] frames it is that value rounded to a nearest hundredth, where a
    value halfway between two hundredths goes to either. *)
Theorem get_stats_percentage :
  (forall app, counters_ok (state app) -> stats_within_a_hundredth app) /\
  (forall float_of_str int_of_str cfg reqs,
     stats_within_a_hundredth
       (serve_all float_of_str int_of_str reqs
          {| state := initial_state; settings := cfg |})).
Proof.
  split; [exact get_stats_in_valid_state|].
  intros float_of_str int_of_str cfg reqs.
  apply get_stats_in_valid_state, counters_ok_serve_all, counters_ok_initial.
Qed.

Lemma get_stats_percentage_witness :
  let app := {| state := {| closed_eye_counter := 0; alert_triggered := false;
                            frame_count := 3; drowsy_frames := 1 |};
                settings := default_settings |} in
  get_stats app
  = OK {| frames_processed := 3; stats_drowsy_frames := 1;
          drowsy_percentage := PFloat 33.33 |}.
Proof.
  intros app.
  destruct (proj1 get_stats_percentage app) as (pct & Hstats & _ & Hpct).
  - unfold counters_ok. simpl. lia.
  - destruct Hpct as (k & -> & _ & _ & Hnear); [simpl; lia|].
    simpl in Hnear. specialize (Hnear ltac:(lia)).
    assert (k = 3333) as -> by lia.
    exact Hstats.
Defined.

(** * Further properties of the code *)

(** ** Runs of the state machine *)

Lemma ticks_app l1 l2 app :
  ticks (l1 ++ l2) app
  = (fst (ticks l1 app) ++ fst (ticks l2 (snd (ticks l1 app))),
     snd (ticks l2 (snd (ticks l1 app)))).
Proof.
  revert app. induction l1 as [|r l1 IH]; intros app; simpl.
  - now destruct (ticks l2 app).
  - destruct (tick r app) as [res app1]. rewrite IH.
    destruct (ticks l1 app1) as [ress app2]. simpl.
    reflexivity.
Qed.

Lemma ticks_settings readings app : settings (snd (ticks readings app)) = settings app.
Proof.
  revert app. induction readings as [|r rs IH]; intros app; simpl; [reflexivity|].
  pose proof (tick_settings r app) as Hr. destruct (tick r app) as [res app1].
  specialize (IH app1). destruct (ticks rs app1) as [ress app2]. simpl in *.
  congruence.
Qed.

Lemma latch_ok_tick r app :
  latch_ok (settings app) (state app) ->
  latch_ok (settings app) (state (snd (tick r app))).
Proof.
  unfold latch_ok. intros [Hc Ha]. destruct r; simpl; [tauto|tauto|].
  unfold check_drowsiness. simpl.
  destruct (ear <? EAR_THRESHOLD (settings app))%float; simpl; [|split; [lia|reflexivity]].
  destruct (Z.leb_spec (CONSECUTIVE_FRAMES (settings app)) (closed_eye_counter (state app) + 1))
    as [Hn|Hn]; simpl.
  - split; [lia|].
    replace (0 <? closed_eye_counter (state app) + 1) with true
      by (symmetry; apply Z.ltb_lt; lia).
    replace (CONSECUTIVE_FRAMES (settings app) <=? closed_eye_counter (state app) + 1)
      with true by (symmetry; apply Z.leb_le; lia).
    destruct (alert_triggered (state app)); reflexivity.
  - split; [lia|]. rewrite Ha.
    replace (CONSECUTIVE_FRAMES (settings app) <=? closed_eye_counter (state app))
      with false by (symmetry; apply Z.leb_gt; lia).
    replace (CONSECUTIVE_FRAMES (settings app) <=? closed_eye_counter (state app) + 1)
      with false by (symmetry; apply Z.leb_gt; lia).
    now rewrite !andb_false_r.
Qed.

Lemma latch_ok_ticks readings app :
  latch_ok (settings app) (state app) ->
  latch_ok (settings app) (state (snd (ticks readings app))).
Proof.
  revert app. induction readings as [|r rs IH]; intros app H; simpl; [exact H|].
  pose proof (latch_ok_tick r app H) as Hr.
  pose proof (tick_settings r app) as Hs.
  destruct (tick r app) as [res app1]. simpl in Hr, Hs.
  specialize (IH app1). rewrite Hs in IH. specialize (IH Hr).
  destruct (ticks rs app1) as [ress app2]. exact IH.
Qed.

Lemma latch_ok_initial cfg : latch_ok cfg initial_state.
Proof. split; [simpl; lia|reflexivity]. Qed.

(** X1: under fixed settings, after any readings from the initial state,
    [closed_eye_counter] is not negative and the latch is set exactly when
    the run of closed frames is not empty and at least [CONSECUTIVE_FRAMES]
    long. *)
Theorem latch_tracks_run_length (cfg : Settings) (readings : list Reading) :
  let st := state (snd (ticks readings {| state := initial_state; settings := cfg |})) in
  0 <= closed_eye_counter st /\
  alert_triggered st
  = (0 <? closed_eye_counter st) && (CONSECUTIVE_FRAMES cfg <=? closed_eye_counter st).
Proof.
  intros st.
  exact (latch_ok_ticks readings {| state := initial_state; settings := cfg |}
           (latch_ok_initial cfg)).
Qed.

(** One frame counts as drowsy exactly when its response says DROWSY. *)
Lemma tick_drowsy_frames r app :
  latch_ok (settings app) (state app) ->
  drowsy_frames (state (snd (tick r app)))
  = drowsy_frames (state app) + (if is_drowsy (fst (tick r app)) then 1 else 0).
Proof.
  unfold latch_ok, is_drowsy. intros [Hc Ha]. destruct r; simpl; [lia|lia|].
  unfold check_drowsiness. simpl.
  destruct (ear <? EAR_THRESHOLD (settings app))%float; simpl; [|lia].
  destruct (Z.leb_spec (CONSECUTIVE_FRAMES (settings app)) (closed_eye_counter (state app) + 1))
    as [Hn|Hn]; simpl.
  - destruct (alert_triggered (state app)); reflexivity.
  - rewrite Ha.
    replace (CONSECUTIVE_FRAMES (settings app) <=? closed_eye_counter (state app))
      with false by (symmetry; apply Z.leb_gt; lia).
    rewrite andb_false_r. lia.
Qed.

Lemma ticks_drowsy_frames readings app :
  latch_ok (settings app) (state app) ->
  drowsy_frames (state (snd (ticks readings app)))
  = drowsy_frames (state app)
    + Z.of_nat (length (List.filter is_drowsy (fst (ticks readings app)))).
Proof.
  revert app. induction readings as [|r rs IH]; intros app H; simpl; [lia|].
  pose proof (latch_ok_tick r app H) as Hr.
  pose proof (tick_settings r app) as Hs.
  pose proof (tick_drowsy_frames r app H) as Hd.
  destruct (tick r app) as [res app1]. simpl in Hr, Hs, Hd.
  specialize (IH app1). rewrite Hs in IH. specialize (IH Hr).
  destruct (ticks rs app1) as [ress app2]. simpl in IH |- *.
  rewrite IH, Hd. destruct (is_drowsy res); simpl length; lia.
Qed.

(** X2: under fixed settings, after any readings from the initial state,
    [drowsy_frames] is the number of responses that said DROWSY. *)
Theorem drowsy_frames_counts_drowsy_responses (cfg : Settings) (readings : list Reading) :
  let run := ticks readings {| state := initial_state; settings := cfg |} in
  drowsy_frames (state (snd run))
  = Z.of_nat (length (List.filter is_drowsy (fst run))).
Proof.
  intros run. unfold run.
  rewrite ticks_drowsy_frames by apply latch_ok_initial. reflexivity.
Qed.

Lemma tick_closed_run r app history :
  closed_eye_counter (state app) = closed_run (EAR_THRESHOLD (settings app)) history ->
  closed_eye_counter (state (snd (tick r app)))
  = closed_run (EAR_THRESHOLD (settings app)) (r :: history).
Proof.
  intros H. destruct r; simpl; try exact H.
  unfold check_drowsiness. simpl.
  destruct (ear <? EAR_THRESHOLD (settings app))%float; simpl; [|reflexivity].
  destruct (_ <=? _); simpl; lia.
Qed.

(** X3: under fixed settings, after any readings from the initial state,
    [closed_eye_counter] is the number of readings below the threshold
    since the last reading at or above it; frames without an EAR neither
    count nor interrupt the run. *)
Theorem closed_eye_counter_is_closed_run (cfg : Settings) (readings : list Reading) :
  closed_eye_counter
    (state (snd (ticks readings {| state := initial_state; settings := cfg |})))
  = closed_run (EAR_THRESHOLD cfg) (rev readings).
Proof.
  induction readings as [|r rs IH] using rev_ind; [reflexivity|].
  rewrite ticks_app, rev_app_distr. simpl rev. simpl app. cbn [snd].
  set (app1 := snd (ticks rs {| state := initial_state; settings := cfg |})) in *.
  assert (settings app1 = cfg) as Hs by apply ticks_settings.
  pose proof (tick_closed_run r app1 (rev rs)) as Ht. rewrite Hs in Ht.
  specialize (Ht IH). simpl ticks.
  destruct (tick r app1) as [res app2]. exact Ht.
Qed.

Lemma ticks_replicate_closed cfg ear (k : nat) :
  (ear <? EAR_THRESHOLD cfg)%float = true ->
  state (snd (ticks (replicate k (EAR ear)) {| state := initial_state; settings := cfg |}))
  = {| closed_eye_counter := Z.of_nat k;
       alert_triggered := (0 <? Z.of_nat k) && (CONSECUTIVE_FRAMES cfg <=? Z.of_nat k);
       frame_count := Z.of_nat k;
       drowsy_frames := Z.max 0 (Z.of_nat k - Z.max (CONSECUTIVE_FRAMES cfg) 1 + 1) |}.
Proof.
  intros Hlt. induction k as [|k IH].
  - simpl. f_equal. lia.
  - replace (replicate (S k) (EAR ear)) with (replicate k (EAR ear) ++ [EAR ear])
      by (symmetry; apply replicate_S_end).
    rewrite ticks_app. cbn [snd].
    set (app1 := snd (ticks (replicate k (EAR ear))
                        {| state := initial_state; settings := cfg |})) in *.
    assert (settings app1 = cfg) as Hs by apply ticks_settings.
    simpl ticks. simpl. rewrite IH, Hs. unfold check_drowsiness. simpl.
    rewrite Hlt.
    replace (0 <? Z.of_nat (S k)) with true by (symmetry; apply Z.ltb_lt; lia).
    replace (Z.of_nat (S k)) with (Z.of_nat k + 1) by lia.
    destruct (Z.leb_spec (CONSECUTIVE_FRAMES cfg) (Z.of_nat k + 1)) as [Hn|Hn]; simpl.
    + f_equal; [|lia].
      destruct ((0 <? Z.of_nat k) && (CONSECUTIVE_FRAMES cfg <=? Z.of_nat k)); reflexivity.
    + f_equal; [|lia].
      replace (CONSECUTIVE_FRAMES cfg <=? Z.of_nat k) with false
        by (symmetry; apply Z.leb_gt; lia).
      now rewrite andb_false_r.
Qed.

(** X4: [k] consecutive frames below the threshold from the initial state
    leave the run length [k]; the latch is set exactly from the frame
    number [CONSECUTIVE_FRAMES] on, and every frame from that one on (from
    the first one when [CONSECUTIVE_FRAMES <= 1]) counts as drowsy. *)
Theorem consecutive_closed_frames (cfg : Settings) (ear : float) (k : nat) :
  (ear <? EAR_THRESHOLD cfg)%float = true ->
  let st := state (snd (ticks (replicate k (EAR ear))
                          {| state := initial_state; settings := cfg |})) in
  closed_eye_counter st = Z.of_nat k /\
  (alert_triggered st = true <-> (0 < k)%nat /\ CONSECUTIVE_FRAMES cfg <= Z.of_nat k) /\
  drowsy_frames st = Z.max 0 (Z.of_nat k - Z.max (CONSECUTIVE_FRAMES cfg) 1 + 1).
Proof.
  intros Hlt st. unfold st. rewrite (ticks_replicate_closed cfg ear k Hlt). simpl.
  split; [reflexivity|]. split; [|reflexivity].
  rewrite andb_true_iff, Z.ltb_lt, Z.leb_le. lia.
Qed.

Lemma consecutive_closed_frames_witness :
  let st := state (snd (ticks (replicate 25 (EAR 0.2)) initial_app)) in
  closed_eye_counter st = 25 /\ alert_triggered st = true /\ drowsy_frames st = 6.
Proof.
  destruct (consecutive_closed_frames default_settings 0.2%float 25 eq_refl)
    as (Hc & Ha & Hd).
  split; [exact Hc|]. split; [|exact Hd].
  apply Ha. simpl. lia.
Defined.

Lemma ticks_no_alert_yet readings : forall app,
  latch_ok (settings app) (state app) ->
  closed_eye_counter (state app) + Z.of_nat (length readings)
    < CONSECUTIVE_FRAMES (settings app) ->
  Forall (fun res => resp_status res <> DROWSY) (fst (ticks readings app)).
Proof.
  induction readings as [|r rs IH]; intros app Hok Hlt; simpl; [constructor|].
  pose proof (latch_ok_tick r app Hok) as Hr.
  pose proof (tick_settings r app) as Hs.
  assert (closed_eye_counter (state (snd (tick r app))) <= closed_eye_counter (state app) + 1
          /\ resp_status (fst (tick r app)) <> DROWSY) as [Hc Hst].
  { destruct Hok as [Hc0 Ha]. change (length (r :: rs)) with (S (length rs)) in Hlt.
    destruct r; simpl; [split; [lia|discriminate]..|].
    unfold check_drowsiness. simpl.
    destruct (ear <? EAR_THRESHOLD (settings app))%float; simpl; [|split; [lia|discriminate]].
    replace (CONSECUTIVE_FRAMES (settings app) <=? closed_eye_counter (state app) + 1)
      with false by (symmetry; apply Z.leb_gt; lia).
    simpl. split; [lia|]. rewrite Ha.
    replace (CONSECUTIVE_FRAMES (settings app) <=? closed_eye_counter (state app))
      with false by (symmetry; apply Z.leb_gt; lia).
    rewrite andb_false_r. discriminate. }
  destruct (tick r app) as [res app1]. simpl in Hr, Hs, Hc, Hst.
  specialize (IH app1). rewrite Hs in IH.
  change (length (r :: rs)) with (S (length rs)) in Hlt.
  specialize (IH Hr ltac:(lia)).
  destruct (ticks rs app1) as [ress app2]. simpl in *.
  constructor; assumption.
Qed.

(** X5: under fixed settings, no response says DROWSY during the first
    [CONSECUTIVE_FRAMES - 1] frames after the initial state, whatever the
    readings are. *)
Theorem no_alert_before_required_frames (cfg : Settings) (readings : list Reading) :
  Z.of_nat (length readings) < CONSECUTIVE_FRAMES cfg ->
  Forall (fun res => resp_status res <> DROWSY)
    (fst (ticks readings {| state := initial_state; settings := cfg |})).
Proof.
  intros Hlt. apply ticks_no_alert_yet; [apply latch_ok_initial|simpl; lia].
Qed.

Lemma no_alert_before_required_frames_witness :
  Forall (fun res => resp_status res <> DROWSY)
    (fst (ticks (replicate 19 (EAR 0.1)) initial_app)).
Proof.
  apply (no_alert_before_required_frames default_settings (replicate 19 (EAR 0.1))).
  simpl. lia.
Defined.

Lemma tick_same_detection r app1 app2 :
  settings app1 = settings app2 ->
  same_detection (state app1) (state app2) ->
  same_detection (state (snd (tick r app1))) (state (snd (tick r app2))).
Proof.
  unfold same_detection. intros Hs (Hc & Ha & Hd). destruct r; simpl; [tauto|tauto|].
  unfold check_drowsiness. simpl. rewrite Hs, Hc, Ha, Hd.
  destruct (ear <? EAR_THRESHOLD (settings app2))%float; [|simpl; tauto].
  destruct (_ <=? _); simpl; tauto.
Qed.

Lemma tick_unreadable_same_detection r app :
  readable r = false -> same_detection (state (snd (tick r app))) (state app).
Proof. destruct r; simpl; [repeat split..|discriminate]. Qed.

Lemma ticks_skip_unreadable readings : forall app1 app2,
  settings app1 = settings app2 ->
  same_detection (state app1) (state app2) ->
  same_detection (state (snd (ticks readings app1)))
                 (state (snd (ticks (List.filter readable readings) app2))).
Proof.
  induction readings as [|r rs IH]; intros app1 app2 Hs Hsame; simpl; [exact Hsame|].
  destruct (readable r) eqn:Hr.
  - simpl.
    pose proof (tick_same_detection r app1 app2 Hs Hsame) as Ht.
    pose proof (tick_settings r app1) as Hs1.
    pose proof (tick_settings r app2) as Hs2.
    destruct (tick r app1) as [res1 a1]. destruct (tick r app2) as [res2 a2].
    simpl in *. specialize (IH a1 a2 ltac:(congruence) Ht).
    destruct (ticks rs a1). destruct (ticks (List.filter readable rs) a2). exact IH.
  - pose proof (tick_unreadable_same_detection r app1 Hr) as Ht.
    pose proof (tick_settings r app1) as Hs1.
    destruct (tick r app1) as [res1 a1]. simpl in *.
    assert (same_detection (state a1) (state app2)) as Hsame'.
    { unfold same_detection in *. intuition congruence. }
    specialize (IH a1 app2 ltac:(congruence) Hsame').
    destruct (ticks rs a1). exact IH.
Qed.

(** X6: frames without an EAR (no face, or no EAR computed) are invisible
    to the detection: from any state, a run of readings leaves the same run
    length, latch and [drowsy_frames] as the run of its readings with an
    EAR alone; only [frame_count] tells them apart. *)
Theorem unreadable_frames_are_skipped (readings : list Reading) (app : App) :
  let full := state (snd (ticks readings app)) in
  let kept := state (snd (ticks (List.filter readable readings) app)) in
  closed_eye_counter full = closed_eye_counter kept /\
  alert_triggered full = alert_triggered kept /\
  drowsy_frames full = drowsy_frames kept /\
  frame_count full
  = frame_count kept
    + Z.of_nat (length readings - length (List.filter readable readings)).
Proof.
  intros full kept.
  destruct (ticks_skip_unreadable readings app app eq_refl) as (Hc & Ha & Hd).
  { repeat split. }
  fold full kept in Hc, Ha, Hd. repeat split; try assumption.
  assert (forall l a, frame_count (state (snd (ticks l a)))
                      = frame_count (state a) + Z.of_nat (length l)) as Hcount.
  { induction l as [|r rs IH]; intros a; simpl; [lia|].
    pose proof (tick_frame_count r a) as Hr. destruct (tick r a) as [res a1].
    specialize (IH a1). destruct (ticks rs a1). simpl in *. lia. }
  unfold full, kept. rewrite !Hcount.
  pose proof (filter_length_le readable readings). lia.
Qed.

Lemma run_ok_process_frame upload app :
  run_ok (state app) -> run_ok (state (snd (process_frame upload app))).
Proof.
  unfold run_ok. intros H. destruct upload as [frame|]; simpl; [|lia].
  destruct (read_frame frame); simpl; [lia|lia|].
  unfold check_drowsiness. simpl.
  destruct (ear <? EAR_THRESHOLD (settings app))%float; [|simpl; lia].
  destruct (_ <=? _); simpl; lia.
Qed.

(** X7: in every state reached from the initial one, by frames, resets,
    configuration updates and queries in any order,
    [0 <= closed_eye_counter <= frame_count]. *)
Theorem closed_eye_counter_bounded
    (float_of_str : string -> option float) (int_of_str : string -> option Z)
    (cfg : Settings) (reqs : list Request) :
  let st := state (serve_all float_of_str int_of_str reqs
                     {| state := initial_state; settings := cfg |}) in
  0 <= closed_eye_counter st <= frame_count st.
Proof.
  intros st. unfold st, serve_all.
  assert (forall app, run_ok (state app) ->
            run_ok (state (fold_left
                             (fun app req => serve float_of_str int_of_str req app)
                             reqs app))) as H.
  { induction reqs as [|req reqs IH]; intros app Hok; simpl; [exact Hok|].
    apply IH. destruct req; simpl; try assumption.
    - now apply run_ok_process_frame.
    - now rewrite update_config_state.
    - unfold run_ok. simpl. lia. }
  apply H. unfold run_ok. simpl. lia.
Qed.

Lemma process_frame_settings upload app :
  settings (snd (process_frame upload app)) = settings app.
Proof.
  destruct upload as [frame|]; simpl; [|reflexivity].
  pose proof (tick_settings (read_frame frame) app) as H.
  now destruct (tick (read_frame frame) app).
Qed.

Lemma process_frame_same_detection upload app1 app2 :
  settings app1 = settings app2 ->
  same_detection (state app1) (state app2) ->
  same_detection (state (snd (process_frame upload app1)))
                 (state (snd (process_frame upload app2))).
Proof.
  intros Hs Hsame. destruct upload as [frame|]; simpl.
  - pose proof (tick_same_detection (read_frame frame) app1 app2 Hs Hsame) as H.
    destruct (tick (read_frame frame) app1), (tick (read_frame frame) app2). exact H.
  - exact Hsame.
Qed.

Lemma process_frame_without_ear upload app :
  has_ear upload = false ->
  same_detection (state (snd (process_frame upload app))) (state app).
Proof.
  intros H. destruct upload as [frame|]; simpl in *; [|repeat split].
  pose proof (tick_unreadable_same_detection (read_frame frame) app H) as Ht.
  destruct (tick (read_frame frame) app). exact Ht.
Qed.

(** X21: for the handler, an upload that does not decode (answered with a
    500), a frame without a face and a frame whose EAR cannot be computed
    are all invisible to the detection: a sequence of uploads leaves the
    same run length, latch and [drowsy_frames] as its uploads with an EAR
    alone. *)
Theorem uploads_without_ear_are_skipped (uploads : list (option Frame)) (app : App) :
  let full := state (process_frames uploads app) in
  let kept := state (process_frames (List.filter has_ear uploads) app) in
  closed_eye_counter full = closed_eye_counter kept /\
  alert_triggered full = alert_triggered kept /\
  drowsy_frames full = drowsy_frames kept.
Proof.
  assert (forall app1 app2,
            settings app1 = settings app2 ->
            same_detection (state app1) (state app2) ->
            same_detection (state (process_frames uploads app1))
                           (state (process_frames (List.filter has_ear uploads) app2)))
    as H.
  { unfold process_frames.
    induction uploads as [|u us IH]; intros app1 app2 Hs Hsame; simpl; [exact Hsame|].
    destruct (has_ear u) eqn:Hu; simpl.
    - apply IH.
      + now rewrite !process_frame_settings.
      + now apply process_frame_same_detection.
    - apply IH.
      + now rewrite process_frame_settings.
      + pose proof (process_frame_without_ear u app1 Hu) as Hw.
        unfold same_detection in *. intuition congruence. }
  intros full kept. apply H; [reflexivity|repeat split].
Qed.

Lemma is_nan_Prim2SF x : is_nan x = true -> Prim2SF x = S754_nan.
Proof.
  unfold is_nan. rewrite FloatAxioms.eqb_spec. unfold SFeqb.
  destruct (Prim2SF x) as [[|]|[|]| |s m e]; try discriminate; [reflexivity|].
  rewrite SFcompare_refl_finite. discriminate.
Qed.

Lemma ltb_nan_l x y : is_nan x = true -> (x <? y)%float = false.
Proof.
  intros H. rewrite ltb_spec, (is_nan_Prim2SF x H). reflexivity.
Qed.

Lemma ltb_nan_r x y : is_nan y = true -> (x <? y)%float = false.
Proof.
  intros H. rewrite ltb_spec, (is_nan_Prim2SF y H). unfold SFltb.
  destruct (Prim2SF x); reflexivity.
Qed.

(** X8: a NaN never counts as closed eyes. When the threshold is NaN
    (which [update_config] stores) or the EAR is NaN, the frame is
    answered AWAKE, the run length is zeroed, the latch is cleared and
    [drowsy_frames] is left as it was: with a NaN threshold the detection
    is off. *)
Theorem nan_reads_as_open_eyes (ear : float) (app : App) :
  is_nan (EAR_THRESHOLD (settings app)) = true \/ is_nan ear = true ->
  resp_status (fst (tick (EAR ear) app)) = AWAKE /\
  closed_eye_counter (state (snd (tick (EAR ear) app))) = 0 /\
  alert_triggered (state (snd (tick (EAR ear) app))) = false /\
  drowsy_frames (state (snd (tick (EAR ear) app))) = drowsy_frames (state app).
Proof.
  intros H.
  assert ((ear <? EAR_THRESHOLD (settings app))%float = false) as Hlt
    by (destruct H; [now apply ltb_nan_r|now apply ltb_nan_l]).
  simpl. unfold check_drowsiness. rewrite Hlt. repeat split.
Qed.

Lemma nan_reads_as_open_eyes_witness :
  let app := snd (update_config no_float_of_str no_int_of_str
                    {[ "ear_threshold"%string := JFloat nan ]} latched_app) in
  alert_triggered (state app) = true /\
  resp_status (fst (tick (EAR 0) app)) = AWAKE /\
  closed_eye_counter (state (snd (tick (EAR 0) app))) = 0.
Proof.
  intros app. split; [reflexivity|].
  destruct (nan_reads_as_open_eyes 0%float app) as (Hs & Hc & _).
  - left. reflexivity.
  - split; assumption.
Defined.

(** X9: with [CONSECUTIVE_FRAMES <= 1] (zero and negative values are
    accepted by [update_config]) there is no hysteresis: from a state with
    a non-negative run length, every frame below the threshold is answered
    DROWSY at once and counts as drowsy. *)
Theorem no_hysteresis_when_one_frame_suffices (ear : float) (app : App) :
  CONSECUTIVE_FRAMES (settings app) <= 1 ->
  0 <= closed_eye_counter (state app) ->
  (ear <? EAR_THRESHOLD (settings app))%float = true ->
  resp_status (fst (tick (EAR ear) app)) = DROWSY /\
  resp_alert_triggered (fst (tick (EAR ear) app)) = true /\
  drowsy_frames (state (snd (tick (EAR ear) app))) = drowsy_frames (state app) + 1.
Proof.
  intros Hn Hc Hlt. simpl. unfold check_drowsiness. simpl. rewrite Hlt.
  replace (CONSECUTIVE_FRAMES (settings app) <=? closed_eye_counter (state app) + 1)
    with true by (symmetry; apply Z.leb_le; lia).
  simpl. destruct (alert_triggered (state app)); repeat split.
Qed.

Lemma no_hysteresis_when_one_frame_suffices_witness :
  let app := snd (update_config no_float_of_str no_int_of_str
                    out_of_range_config
                    {| state := initial_state;
                       settings := set_EAR_THRESHOLD default_settings 0.25 |}) in
  CONSECUTIVE_FRAMES (settings app) = 0 /\
  resp_status (fst (tick (EAR (-2)) app)) = DROWSY.
Proof.
  intros app. split; [reflexivity|].
  destruct (no_hysteresis_when_one_frame_suffices (-2)%float app) as (Hs & _).
  - apply Z.leb_le. reflexivity.
  - apply Z.leb_le. reflexivity.
  - reflexivity.
  - exact Hs.
Defined.

(** ** Configuration updates *)

Section UpdateConfigMore.

Variable float_of_str : string -> option float.
Variable int_of_str : string -> option Z.

(** X10: [update_config] reads three keys only: any other key of the
    request, whatever its value, changes neither the answer nor the
    settings. *)
Theorem update_config_ignores_other_keys
    (config : gmap string json) (key : string) (v : json) (app : App) :
  key <> "ear_threshold"%string ->
  key <> "consecutive_frames"%string ->
  key <> "window_size"%string ->
  update_config float_of_str int_of_str (<[key := v]> config) app
  = update_config float_of_str int_of_str config app.
Proof.
  intros H1 H2 H3. unfold update_config, assign.
  rewrite !lookup_insert_ne by assumption. reflexivity.
Qed.

(** X11: what a successful [update_config] answers is what [get_config]
    answers next; and every other answer, for a value that does not
    convert or a threshold that cannot be encoded, is a 500. *)
Theorem update_config_answers_new_config (config : gmap string json) (app : App) :
  match fst (update_config float_of_str int_of_str config app) with
  | OK body => get_config (snd (update_config float_of_str int_of_str config app)) = body
  | HTTPError code => code = 500
  end.
Proof.
  unfold update_config, get_config, json_response.
  destruct (assign config "ear_threshold" _ _ _) as [cfg1|]; [|reflexivity].
  destruct (assign config "consecutive_frames" _ _ _) as [cfg2|]; [|reflexivity].
  destruct (assign config "window_size" _ _ _) as [cfg3|]; [|reflexivity].
  simpl. destruct (is_finite (EAR_THRESHOLD cfg3)); reflexivity.
Qed.

(** X12: [update_config] is idempotent: sending the same request twice
    leaves the settings of sending it once, also when it fails half-way. *)
Theorem update_config_idempotent (config : gmap string json) (app : App) :
  update_config float_of_str int_of_str config
    (snd (update_config float_of_str int_of_str config app))
  = update_config float_of_str int_of_str config app.
Proof.
  unfold update_config, assign.
  destruct (config !! "ear_threshold"%string) as [v1|];
    [destruct (to_float float_of_str v1) as [f|]; simpl; [|reflexivity]|simpl];
  (destruct (config !! "consecutive_frames"%string) as [v2|];
    [destruct (to_int int_of_str v2) as [n|]; simpl; [|reflexivity]|simpl]);
  (destruct (config !! "window_size"%string) as [v3|];
    [destruct (to_int int_of_str v3) as [m|]; simpl; reflexivity|simpl; reflexivity]).
Qed.

(** X13: [update_config] is not atomic. When the threshold converts and
    [consecutive_frames] does not, the request is answered with a 500 and
    the new threshold is in force all the same; the two other settings and
    the detection state are as before. *)
Theorem update_config_not_atomic
    (config : gmap string json) (app : App) (v1 v2 : json) (f : float) (e : exn) :
  config !! "ear_threshold"%string = Some v1 ->
  to_float float_of_str v1 = Ret f ->
  config !! "consecutive_frames"%string = Some v2 ->
  to_int int_of_str v2 = Raise e ->
  update_config float_of_str int_of_str config app
  = (HTTPError 500,
     {| state := state app;
        settings := {| EAR_THRESHOLD := f;
                       CONSECUTIVE_FRAMES := CONSECUTIVE_FRAMES (settings app);
                       WINDOW_SIZE := WINDOW_SIZE (settings app) |} |}).
Proof.
  intros H1 Hf H2 Hn. unfold update_config, assign.
  rewrite H1, Hf. simpl. rewrite H2, Hn. reflexivity.
Qed.

End UpdateConfigMore.

Lemma update_config_ignores_other_keys_witness :
  update_config no_float_of_str no_int_of_str
    (<["threshold"%string := JFloat 0.5]> out_of_range_config) initial_app
  = update_config no_float_of_str no_int_of_str out_of_range_config initial_app.
Proof.
  apply update_config_ignores_other_keys; discriminate.
Defined.

Lemma update_config_not_atomic_witness :
  update_config no_float_of_str no_int_of_str
    {[ "ear_threshold"%string := JFloat 0.5; "consecutive_frames"%string := JStr "ten" ]}
    initial_app
  = (HTTPError 500,
     {| state := initial_state;
        settings := {| EAR_THRESHOLD := 0.5; CONSECUTIVE_FRAMES := 20; WINDOW_SIZE := 10 |} |}).
Proof.
  apply (update_config_not_atomic no_float_of_str no_int_of_str _ initial_app
           (JFloat 0.5) (JStr "ten") 0.5%float ValueError); reflexivity.
Defined.

(** ** The metric *)

Lemma pixel_points_out_of_range lms w h idxs idx :
  idx ∈ idxs -> (length lms <= idx)%nat ->
  exists e, pixel_points lms w h idxs = Raise e.
Proof.
  intros Hin Hlen. induction idxs as [|i idxs IH]; [inversion Hin|].
  simpl. apply elem_of_cons in Hin as [<-|Hin].
  - unfold pixel_point, index. rewrite (lookup_ge_None_2 lms idx Hlen). simpl. eauto.
  - destruct (pixel_point lms w h i) as [p|e]; simpl; [|eauto].
    destruct (IH Hin) as [e ->]. simpl. eauto.
Qed.

(** X14: a face mesh with fewer than 388 landmarks (the highest index read
    is 387) has no EAR: [calculate_EAR] returns [None] and the frame is
    classified ERROR, the counters of the detection untouched. *)
Theorem short_mesh_has_no_metric (lms : FaceLandmarks) (frame_shape : Z * Z * Z) :
  (length lms < 388)%nat ->
  calculate_EAR (Some lms) frame_shape = None /\
  forall faces app,
    let frame := {| shape := frame_shape; face_landmarks := Some (Some lms :: faces) |} in
    resp_status (fst (tick (read_frame frame) app)) = ERROR /\
    closed_eye_counter (state (snd (tick (read_frame frame) app)))
    = closed_eye_counter (state app).
Proof.
  intros Hlen.
  assert (calculate_EAR (Some lms) frame_shape = None) as Hnone.
  { destruct frame_shape as [[h w] c]. unfold calculate_EAR.
    destruct (pixel_points_out_of_range lms w h (LEFT_EYE ++ RIGHT_EYE) 387%nat)
      as [e ->]; [|lia|reflexivity].
    unfold LEFT_EYE, RIGHT_EYE. set_solver. }
  split; [exact Hnone|].
  intros faces app frame. unfold frame, read_frame. cbn [face_landmarks shape].
  rewrite Hnone. split; reflexivity.
Qed.

Lemma short_mesh_has_no_metric_witness :
  calculate_EAR (Some (take 387 (face_with open_left open_right))) fixture_shape = None.
Proof.
  apply (short_mesh_has_no_metric (take 387 (face_with open_left open_right)) fixture_shape).
  vm_compute. lia.
Defined.

Lemma not_finite_Prim2SF x :
  is_finite x = false ->
  Prim2SF x = S754_nan \/ exists s, Prim2SF x = S754_infinity s.
Proof.
  unfold is_finite, is_nan, is_infinity.
  rewrite !FloatAxioms.eqb_spec, abs_spec.
  change (Prim2SF infinity) with (S754_infinity false).
  destruct (Prim2SF x) as [[|]|s| |[|] m e]; eauto; unfold SFeqb;
    rewrite ?SFcompare_refl_finite; simpl; discriminate.
Qed.

(** The product of a NaN or an infinity with anything is a NaN or an
    infinity, which [int()] refuses. *)
Lemma int_of_product_not_finite x y :
  is_finite x = false -> exists e, int_of_float (x * y) = Raise e.
Proof.
  intros H. unfold int_of_float. rewrite mul_spec.
  destruct (not_finite_Prim2SF x H) as [->|[s ->]].
  - simpl. eauto.
  - destruct (Prim2SF y) as [sy|sy| |sy my ey]; simpl; eauto.
Qed.

Lemma pixel_point_not_finite (lms : list Landmark) w h idx lm :
  lms !! idx = Some lm ->
  is_finite (lm_x lm) = false \/ is_finite (lm_y lm) = false ->
  exists e, pixel_point lms w h idx = Raise e.
Proof.
  intros Hlm Hnf. unfold pixel_point, index, float_mul_int. rewrite Hlm. simpl.
  destruct Hnf as [Hx|Hy].
  - destruct (float_of_int w) as [fw|e]; simpl; [|eauto].
    destruct (int_of_product_not_finite (lm_x lm) fw Hx) as [e ->]. simpl. eauto.
  - destruct (float_of_int w) as [fw|e]; simpl; [|eauto].
    destruct (int_of_float (lm_x lm * fw)) as [x|e]; simpl; [|eauto].
    destruct (float_of_int h) as [fh|e]; simpl; [|eauto].
    destruct (int_of_product_not_finite (lm_y lm) fh Hy) as [e ->]. simpl. eauto.
Qed.

Lemma pixel_points_not_finite (lms : list Landmark) w h idxs idx lm :
  idx ∈ idxs -> lms !! idx = Some lm ->
  is_finite (lm_x lm) = false \/ is_finite (lm_y lm) = false ->
  exists e, pixel_points lms w h idxs = Raise e.
Proof.
  intros Hin Hlm Hnf. induction idxs as [|i idxs IH]; [inversion Hin|].
  simpl. apply elem_of_cons in Hin as [<-|Hin].
  - destruct (pixel_point_not_finite lms w h idx lm Hlm Hnf) as [e ->]. simpl. eauto.
  - destruct (pixel_point lms w h i) as [p|e]; simpl; [|eauto].
    destruct (IH Hin) as [e ->]. simpl. eauto.
Qed.

(** X15: when one coordinate of one of the twelve eye landmarks is a NaN or
    an infinity, [calculate_EAR] returns [None]: the conversion to a pixel
    raises, whatever the frame size is. *)
Theorem non_finite_landmark_has_no_metric
    (lms : list Landmark) (frame_shape : Z * Z * Z) (idx : nat) (lm : Landmark) :
  idx ∈ LEFT_EYE ++ RIGHT_EYE ->
  lms !! idx = Some lm ->
  is_finite (lm_x lm) = false \/ is_finite (lm_y lm) = false ->
  calculate_EAR (Some lms) frame_shape = None.
Proof.
  intros Hin Hlm Hnf. destruct frame_shape as [[h w] c]. unfold calculate_EAR.
  destruct (pixel_points_not_finite lms w h _ idx lm Hin Hlm Hnf) as [e ->].
  reflexivity.
Qed.

Lemma non_finite_landmark_has_no_metric_witness :
  calculate_EAR
    (Some (<[160%nat := {| lm_x := 0.5; lm_y := nan |}]> (face_with open_left open_right)))
    fixture_shape = None.
Proof.
  apply (non_finite_landmark_has_no_metric _ fixture_shape 160
           {| lm_x := 0.5; lm_y := nan |}).
  - unfold LEFT_EYE, RIGHT_EYE. set_solver.
  - reflexivity.
  - right. reflexivity.
Defined.

Lemma pixel_points_ext (lms lms' : list Landmark) w h idxs :
  (forall idx, idx ∈ idxs -> lms !! idx = lms' !! idx) ->
  pixel_points lms w h idxs = pixel_points lms' w h idxs.
Proof.
  induction idxs as [|i idxs IH]; intros H; simpl; [reflexivity|].
  assert (pixel_point lms w h i = pixel_point lms' w h i) as ->
    by (unfold pixel_point, index; rewrite (H i) by (left); reflexivity).
  rewrite IH; [reflexivity|]. intros idx Hin. apply H. now right.
Qed.

(** X16: [calculate_EAR] reads the twelve landmarks of [LEFT_EYE] and
    [RIGHT_EYE] and nothing else: two meshes that agree at these indices
    have the same result, whatever the rest of the face is. *)
Theorem calculate_EAR_reads_eye_landmarks_only
    (lms lms' : list Landmark) (frame_shape : Z * Z * Z) :
  (forall idx, idx ∈ LEFT_EYE ++ RIGHT_EYE -> lms !! idx = lms' !! idx) ->
  calculate_EAR (Some lms) frame_shape = calculate_EAR (Some lms') frame_shape.
Proof.
  intros H. destruct frame_shape as [[h w] c]. unfold calculate_EAR.
  now rewrite (pixel_points_ext lms lms' w h _ H).
Qed.

Lemma calculate_EAR_reads_eye_landmarks_only_witness :
  calculate_EAR
    (Some (<[1%nat := {| lm_x := nan; lm_y := 0.9 |}]> (face_with open_left open_right)))
    fixture_shape
  = Some 0.3%float.
Proof.
  rewrite (calculate_EAR_reads_eye_landmarks_only _ (face_with open_left open_right)).
  - reflexivity.
  - intros idx Hin. apply list_lookup_insert_ne. intros <-.
    cbn in Hin.
    repeat (apply elem_of_cons in Hin as [Hin|Hin]; [discriminate Hin|]).
    inversion Hin.
Defined.

Lemma euclidean_distance_sym a b : euclidean_distance a b = euclidean_distance b a.
Proof. unfold euclidean_distance. f_equal. ring. Qed.

Lemma euclidean_distance_shift t a b :
  euclidean_distance (shift t a) (shift t b) = euclidean_distance a b.
Proof. unfold euclidean_distance, shift. simpl. f_equal. ring. Qed.

Lemma euclidean_distance_mirror w a b :
  euclidean_distance (mirror w a) (mirror w b) = euclidean_distance a b.
Proof. unfold euclidean_distance, mirror. simpl. f_equal. ring. Qed.

Lemma index_fmap {A B} (f : A -> B) (l : list A) (i : nat) :
  index (f <$> l) i
  = match index l i with
    | Ret a => Ret (f a)
    | Raise e => Raise e
    end.
Proof. unfold index. rewrite list_lookup_fmap. now destruct (l !! i). Qed.

(** A map of the points that keeps every distance keeps the metric. *)
Lemma ear_of_points_isometry (f : Point -> Point) (points : list Point) :
  (forall a b, euclidean_distance (f a) (f b) = euclidean_distance a b) ->
  ear_of_points (f <$> points) = ear_of_points points.
Proof.
  intros Hf.
  assert (forall eye, calculate_eye_ear (f <$> eye) = calculate_eye_ear eye) as Heye.
  { intros eye. unfold calculate_eye_ear. rewrite !index_fmap.
    destruct (index eye 1) as [a1|]; simpl; [|reflexivity].
    destruct (index eye 5) as [a5|]; simpl; [|reflexivity].
    rewrite Hf. destruct (euclidean_distance a1 a5) as [v1|]; simpl; [|reflexivity].
    destruct (index eye 2) as [a2|]; simpl; [|reflexivity].
    destruct (index eye 4) as [a4|]; simpl; [|reflexivity].
    rewrite Hf. destruct (euclidean_distance a2 a4) as [v2|]; simpl; [|reflexivity].
    destruct (index eye 0) as [a0|]; simpl; [|reflexivity].
    destruct (index eye 3) as [a3|]; simpl; [|reflexivity].
    rewrite Hf. reflexivity. }
  unfold ear_of_points. rewrite <- fmap_take, <- fmap_drop, !Heye. reflexivity.
Qed.

(** X17: the metric depends on the shape of the eyes, not on where they
    are in the frame: translating all pixel points by the same vector, or
    mirroring the frame, gives the same result, to the last bit and with
    the same exception if any. *)
Theorem metric_invariant_under_translation_and_mirror (points : list Point) :
  (forall t, ear_of_points (shift t <$> points) = ear_of_points points) /\
  (forall w, ear_of_points (mirror w <$> points) = ear_of_points points).
Proof.
  split; intros x; apply ear_of_points_isometry; intros a b.
  - apply euclidean_distance_shift.
  - apply euclidean_distance_mirror.
Qed.

Lemma SFadd_comm x y : SFadd prec emax x y = SFadd prec emax y x.
Proof.
  destruct x as [sx|sx| |sx mx ex], y as [sy|sy| |sy my ey]; simpl;
    try reflexivity; try (destruct sx, sy; reflexivity).
  rewrite (Z.min_comm ey ex). f_equal. apply Z.add_comm.
Qed.

Lemma float_add_comm (x y : float) : (x + y = y + x)%float.
Proof. apply Prim2SF_inj. rewrite !add_spec. apply SFadd_comm. Qed.

(** X18: the two eyes play the same part: exchanging the six points of the
    left eye with the six points of the right eye does not change what
    [calculate_EAR] computes from the pixel points (the same number, or
    [None] in both cases). *)
Theorem metric_symmetric_in_the_eyes (left right : list Point) :
  length left = 6%nat -> length right = 6%nat ->
  catch (ear_of_points (left ++ right)) = catch (ear_of_points (right ++ left)).
Proof.
  intros Hl Hr. unfold ear_of_points.
  rewrite !take_app_length', !drop_app_length' by (symmetry; assumption).
  destruct (calculate_eye_ear left) as [l|el], (calculate_eye_ear right) as [r|er];
    simpl; try reflexivity.
  now rewrite float_add_comm.
Qed.

Lemma metric_symmetric_in_the_eyes_witness :
  catch (ear_of_points (closed_right ++ open_left)) = Some 0.25%float.
Proof.
  rewrite <- (metric_symmetric_in_the_eyes open_left closed_right eq_refl eq_refl).
  reflexivity.
Defined.

Lemma sumsq_zero_iff (a b : Point) :
  (a.1 - b.1) ^ 2 + (a.2 - b.2) ^ 2 = 0 <-> a = b.
Proof.
  destruct a as [ax ay], b as [bx by']. simpl. rewrite !Z.pow_2_r. split.
  - intros H.
    pose proof (Z.square_nonneg (ax - bx)) as Hx0.
    pose proof (Z.square_nonneg (ay - by')) as Hy0.
    assert ((ax - bx) * (ax - bx) = 0) as Hx by lia.
    assert ((ay - by') * (ay - by') = 0) as Hy by lia.
    apply Z.mul_eq_0 in Hx, Hy. f_equal; lia.
  - intros [= -> ->]. lia.
Qed.

(** X19: [euclidean_distance] is symmetric, and for pixel coordinates
    below [2^510] in absolute value it returns a number that is zero
    exactly when the two points are the same: the metric is undefined
    exactly when the two corners of an eye fall on one pixel. *)
Theorem euclidean_distance_zero_iff_same_point (a b : Point) :
  euclidean_distance a b = euclidean_distance b a /\
  (in_range a = true -> in_range b = true ->
   exists d, euclidean_distance a b = Ret d /\
             ((d =? 0)%float = true <-> a = b)).
Proof.
  split; [apply euclidean_distance_sym|]. intros Ha Hb.
  destruct (euclidean_distance_in_range a b Ha Hb) as (Hret & _ & Hpos).
  exists (distance a b). split; [exact Hret|].
  destruct (in_range_sumsq a b Ha Hb) as [H0 Hd].
  rewrite <- sumsq_zero_iff. unfold distance in *.
  set (n := (a.1 - b.1) ^ 2 + (a.2 - b.2) ^ 2) in *.
  destruct (Z.eq_dec n 0) as [->|Hne].
  - split; reflexivity.
  - split; [|contradiction]. intros Hz. exfalso.
    destruct (float_of_int_pos n ltac:(lia) Hd) as [_ Hfn].
    pose proof (Zdigits2_pos_ge_1 (Z.to_pos n)) as Hd1.
    rewrite Z2Pos.id in Hd1 by lia.
    pose proof (half_bounds (Zdigits2 n + 1)) as H1.
    pose proof (half_bounds (Zdigits2 n + 1 + 1)) as H2.
    pose proof (fsqrt_bounds _ _ _ Hfn ltac:(lia) ltac:(lia)) as Hs.
    rewrite (fpos_not_zero _ _ _ Hs) in Hz. discriminate.
Qed.

Lemma euclidean_distance_zero_iff_same_point_witness :
  exists d, euclidean_distance (5, 4) (5, 4) = Ret d /\ (d =? 0)%float = true.
Proof.
  destruct (proj2 (euclidean_distance_zero_iff_same_point (5, 4) (5, 4)) eq_refl eq_refl)
    as (d & Hd & Hz).
  exists d. split; [exact Hd|]. apply Hz. reflexivity.
Defined.

(** The docstring of [euclidean_distance]. *)
Example euclidean_distance_docstring : euclidean_distance (0, 0) (3, 4) = Ret 5%float.
Proof. reflexivity. Qed.

(** ** Statistics *)

Lemma div_eucl_div_mod a b : Z.div_eucl a b = (a / b, a mod b).
Proof. unfold Z.div, Z.modulo. now destruct (Z.div_eucl a b). Qed.

(** [n / n] is exactly [1.0]. *)
Lemma int_truediv_self n : 0 < n -> int_truediv n n = Ret 1%float.
Proof.
  intros Hn. unfold int_truediv.
  replace (n =? 0) with false by (symmetry; apply Z.eqb_neq; lia).
  replace (n <? 0) with false by (symmetry; apply Z.ltb_ge; lia).
  rewrite Z.abs_eq by lia. unfold SF_of_ratio, SFdiv_core_binary.
  replace (Zdigits2 n + 0 - (Zdigits2 n + 0)) with 0 by lia.
  change (Z.min (fexp prec emax 0) (0 - 0)) with (-53).
  change (0 - 0 - -53) with 53.
  cbv beta iota zeta.
  rewrite div_eucl_div_mod, Z.shiftl_mul_pow2 by lia.
  rewrite (Z.mul_comm n), Z.div_mul, Z.mod_mul by lia.
  assert (new_location n 0 = loc_Exact) as ->
    by (unfold new_location; destruct (Z.even n); reflexivity).
  reflexivity.
Qed.

(** X20: the two ends of the percentage are exact. When frames have been
    processed, [get_stats] answers [0.0] if none of them was drowsy and
    [100.0] if all of them were. *)
Theorem percentage_ends_are_exact (app : App) :
  0 < frame_count (state app) ->
  (drowsy_frames (state app) = 0 ->
   get_stats app
   = OK {| frames_processed := frame_count (state app);
           stats_drowsy_frames := 0; drowsy_percentage := PFloat 0 |}) /\
  (drowsy_frames (state app) = frame_count (state app) ->
   get_stats app
   = OK {| frames_processed := frame_count (state app);
           stats_drowsy_frames := frame_count (state app);
           drowsy_percentage := PFloat 100 |}).
Proof.
  intros Hpos. unfold get_stats, percentage.
  replace (0 <? frame_count (state app)) with true by (symmetry; apply Z.ltb_lt; lia).
  rewrite Z.max_l by lia. split; intros ->.
  - unfold int_truediv.
    replace (frame_count (state app) =? 0) with false by (symmetry; apply Z.eqb_neq; lia).
    replace (frame_count (state app) <? 0) with false by (symmetry; apply Z.ltb_ge; lia).
    reflexivity.
  - rewrite int_truediv_self by lia. reflexivity.
Qed.

Lemma percentage_ends_are_exact_witness :
  get_stats (snd (ticks [EAR 0.5; EAR 0.5] initial_app))
  = OK {| frames_processed := 2; stats_drowsy_frames := 0; drowsy_percentage := PFloat 0 |} /\
  get_stats (snd (ticks [EAR 0.1; EAR 0.1]
                    {| state := initial_state;
                       settings := set_CONSECUTIVE_FRAMES default_settings 1 |}))
  = OK {| frames_processed := 2; stats_drowsy_frames := 2; drowsy_percentage := PFloat 100 |}.
Proof.
  split.
  - apply (proj1 (percentage_ends_are_exact (snd (ticks [EAR 0.5; EAR 0.5] initial_app))
                    ltac:(simpl; lia))).
    reflexivity.
  - apply (proj2 (percentage_ends_are_exact
                    (snd (ticks [EAR 0.1; EAR 0.1]
                            {| state := initial_state;
                               settings := set_CONSECUTIVE_FRAMES default_settings 1 |}))
                    ltac:(simpl; lia))).
    reflexivity.
Defined.
